(** * polisense.AI landing page: lead-capture modal, scroll-driven camera, parallax layers

    A shallow embedding of the three interactive pieces of the repository:

    - [BookDemoModal]   (components/BookDemoModal.tsx): the "book a demo" dialog,
    - [ArequipaScrollMap] (scripts/main.js): the scroll-driven camera table,
    - [TerritoryLayers] (app/components/TerritoryLayers.tsx): the parallax frame.

    JavaScript numbers are IEEE 754 binary64 values and are modelled by Rocq's
    primitive floats; React event handlers are modelled by the ordered list of
    calls they make, which React then applies to the component state. *)

From Stdlib Require Import ZArith Floats.
From stdpp Require Import base strings list gmap.

Set Warnings "-inexact-float,-register-all".
Local Open Scope string_scope.
Local Open Scope list_scope.

(** ** The lead-capture dialog *)

Module BookDemoModal.

(** The five [useState] cells of the component, in declaration order. *)
Record State := mkState {
  email : string;
  company : string;
  isSubmitting : bool;
  isSuccess : bool;
  error : string
}.

(** [useState('')], [useState('')], [useState(false)], [useState(false)],
    [useState('')]. *)
Definition initial : State := mkState "" "" false false "".

(** A value thrown by the rejected promise of [addDoc]; Firestore errors carry
    a [code] ("unavailable", "invalid-argument", "resource-exhausted", ...) and
    a [message]. *)
Record FirestoreError := mkError { code : string; message : string }.

(** Field values of the written document: plain strings, or the sentinel that
    [serverTimestamp()] returns and the server replaces by its own clock. *)
Inductive FieldValue :=
| StringValue (s : string)
| ServerTimestamp.

Definition DocumentData := list (string * FieldValue).

(** What a handler does, in program order: calls to the state setters, to the
    event object, to the Firestore SDK, to [setTimeout], to the parent-supplied
    [onClose], and to the console. *)
Inductive Call :=
| preventDefault
| setEmail (v : string)
| setCompany (v : string)
| setIsSubmitting (b : bool)
| setIsSuccess (b : bool)
| setError (v : string)
| addDoc (collectionPath : string) (data : DocumentData)
| setTimeout (callback : list Call) (ms : Z)
| onClose
| console_error (label : string) (err : FirestoreError).

(** How the promise returned by [addDoc] settles. *)
Inductive WriteResult :=
| Accepted
| Rejected (err : FirestoreError).

(** The object literal passed to [addDoc]; [email] and [company] are the values
    of the render in which the handler was created. *)
Definition demoRequest (s : State) : DocumentData :=
  [ ("email", StringValue (email s));
    ("company", StringValue (company s));
    ("timestamp", ServerTimestamp);
    ("status", StringValue "pending") ].

(** The literal passed to [setError] in the [catch] block. *)
Definition failureMessage : string := "Failed to submit. Please try again.".

(** The arrow function given to [setTimeout] in the success branch. *)
Definition autoClose : list Call :=
  [ setEmail ""; setCompany ""; setIsSuccess false; onClose ].

(** [handleSubmit], up to and including the call awaited in the [try] block. *)
Definition handleSubmit_request (s : State) : list Call :=
  [ preventDefault;
    setError "";
    setIsSubmitting true;
    addDoc "demo-requests" (demoRequest s) ].

(** [handleSubmit], from the point where the awaited promise settles: the rest
    of the [try] block or the [catch] block, then the [finally] block. *)
Definition handleSubmit_settle (r : WriteResult) : list Call :=
  match r with
  | Accepted =>
      [ setIsSuccess true; setTimeout autoClose 2000 ]
  | Rejected err =>
      [ console_error "Error submitting form:" err;
        setError failureMessage ]
  end ++ [ setIsSubmitting false ].

Definition handleSubmit (s : State) (r : WriteResult) : list Call :=
  handleSubmit_request s ++ handleSubmit_settle r.

(** [handleClose]; [isSubmitting] is read from the render that created it. *)
Definition handleClose (s : State) : list Call :=
  if negb (isSubmitting s)
  then [ setEmail ""; setCompany ""; setError ""; setIsSuccess false; onClose ]
  else [].

(** The [onChange] handlers of the two inputs. *)
Definition onChangeEmail (v : string) : list Call := [ setEmail v ].
Definition onChangeCompany (v : string) : list Call := [ setCompany v ].

(** The effect of one call on the component state: setters replace their cell,
    every other call leaves the state alone. *)
Definition apply (s : State) (c : Call) : State :=
  match c with
  | setEmail v => mkState v (company s) (isSubmitting s) (isSuccess s) (error s)
  | setCompany v => mkState (email s) v (isSubmitting s) (isSuccess s) (error s)
  | setIsSubmitting b => mkState (email s) (company s) b (isSuccess s) (error s)
  | setIsSuccess b => mkState (email s) (company s) (isSubmitting s) b (error s)
  | setError v => mkState (email s) (company s) (isSubmitting s) (isSuccess s) v
  | _ => s
  end.

(** The state after React has applied the queued updates of a handler run. *)
Definition run (calls : list Call) (s : State) : State := foldl apply s calls.

(** Projections of a run: the documents created, the timers started, the
    number of times the parent callback was invoked. *)
Definition writes (calls : list Call) : list (string * DocumentData) :=
  omap (fun c => match c with addDoc p d => Some (p, d) | _ => None end) calls.


Definition is_onClose (c : Call) : bool :=
  match c with onClose => true | _ => false end.

Definition closes (calls : list Call) : nat :=
  length (List.filter is_onClose calls).

(** What the component renders.  [None] is the closed dialog ([isOpen] false);
    an open dialog has the close button and either the success panel or the
    form with its optional error banner and its submit button. *)
Inductive Body :=
| SuccessPanel
| FormPanel (emailValue companyValue : string) (errorBanner : option string)
            (submitDisabled : bool) (submitLabel : string).

Record View := mkView { closeDisabled : bool; body : Body }.

Definition render (isOpen : bool) (s : State) : option View :=
  if isOpen then
    Some (mkView (isSubmitting s)
      (if isSuccess s then SuccessPanel
       else FormPanel (email s) (company s)
              (if String.eqb (error s) "" then None else Some (error s))
              (isSubmitting s)
              (if isSubmitting s then "Submitting..." else "Submit Request")))
  else None.

(** *** The dialog inside the page

    The page owns [isModalOpen]; the dialog is always mounted, so its state
    survives closing.  Writes in flight and timers not yet fired are kept
    explicitly, so that handlers interleave the way the event loop allows.

    The dialog's markup is the child of an [AnimatePresence]: when [isOpen]
    turns false, the elements of the last render in which it was true stay in
    the document, with the values and the handlers of that render, until the
    exit animation is over.  [exiting] is the state of that last open render,
    [None] when no exit is going on. *)

Record System := mkSystem {
  modal : State;
  isModalOpen : bool;
  inFlight : list DocumentData;
  timers : list (list Call);
  issued : list (string * DocumentData);
  stored : list (string * DocumentData);
  exiting : option State
}.

(** [useState(false)] in the page, a freshly mounted dialog, nothing pending. *)
Definition boot : System := mkSystem initial false [] [] [] [] None.

(** One call of a handler, executed in the page: setters update the dialog,
    [addDoc] issues a create, [setTimeout] registers its callback, [onClose]
    is the page's [() => setIsModalOpen(false)]. *)
Definition exec (sys : System) (c : Call) : System :=
  match c with
  | addDoc p d =>
      mkSystem (modal sys) (isModalOpen sys) (inFlight sys ++ [d]) (timers sys)
               (issued sys ++ [(p, d)]) (stored sys) (exiting sys)
  | setTimeout cb _ =>
      mkSystem (modal sys) (isModalOpen sys) (inFlight sys) (timers sys ++ [cb])
               (issued sys) (stored sys) (exiting sys)
  | onClose =>
      mkSystem (modal sys) false (inFlight sys) (timers sys)
               (issued sys) (stored sys) (exiting sys)
  | _ =>
      mkSystem (apply (modal sys) c) (isModalOpen sys) (inFlight sys) (timers sys)
               (issued sys) (stored sys) (exiting sys)
  end.

Definition execAll (calls : list Call) (sys : System) : System :=
  foldl exec sys calls.

(** The render whose elements are in the document: the current one while the
    dialog is open, the last open one during the exit animation. *)
Definition onScreen (sys : System) : option State :=
  if isModalOpen sys then Some (modal sys) else exiting sys.

(** The render that follows a batch of calls: when the batch closed the
    dialog, the elements of the render before it start their exit. *)
Definition commit (before after : System) : System :=
  if isModalOpen before && negb (isModalOpen after)
  then mkSystem (modal after) (isModalOpen after) (inFlight after) (timers after)
                (issued after) (stored after) (Some (modal before))
  else after.

(** What can happen to the page. *)
Inductive Event :=
| ClickGetStarted
| TypeEmail (v : string)
| TypeCompany (v : string)
| SubmitForm
| ClickClose
| WriteSettles (n : nat) (r : WriteResult)
| TimerFires (n : nat)
| ExitComplete.

(** The form is on screen: the render on screen is not the success panel. *)
Definition formShown (sys : System) : bool :=
  match onScreen sys with
  | Some r => negb (isSuccess r)
  | None => false
  end.

(** The submit event reaches [handleSubmit]: the form is on screen, and in
    the render on screen the submit button is not disabled and both
    [required] inputs are filled in. *)
Definition canSubmit (sys : System) : bool :=
  match onScreen sys with
  | Some r =>
      negb (isSuccess r) && negb (isSubmitting r)
      && negb (String.eqb (email r) "")
      && negb (String.eqb (company r) "")
  | None => false
  end.

(** One turn of the event loop; [None] when the event cannot occur.  The
    handlers that run are those of the render on screen; any write in flight
    may settle and any pending timer may fire. *)
Definition step (sys : System) (e : Event) : option System :=
  match e with
  | ClickGetStarted =>
      Some (mkSystem (modal sys) true (inFlight sys) (timers sys)
                     (issued sys) (stored sys) None)
  | TypeEmail v =>
      if formShown sys then Some (execAll (onChangeEmail v) sys) else None
  | TypeCompany v =>
      if formShown sys then Some (execAll (onChangeCompany v) sys) else None
  | SubmitForm =>
      match onScreen sys with
      | Some r =>
          if canSubmit sys then Some (execAll (handleSubmit_request r) sys) else None
      | None => None
      end
  | ClickClose =>
      match onScreen sys with
      | Some r => Some (commit sys (execAll (handleClose r) sys))
      | None => None
      end
  | WriteSettles n r =>
      match inFlight sys !! n with
      | None => None
      | Some d =>
          let sys' :=
            mkSystem (modal sys) (isModalOpen sys) (delete n (inFlight sys))
                     (timers sys) (issued sys)
                     (match r with
                      | Accepted => stored sys ++ [("demo-requests", d)]
                      | Rejected _ => stored sys
                      end)
                     (exiting sys) in
          Some (execAll (handleSubmit_settle r) sys')
      end
  | TimerFires n =>
      match timers sys !! n with
      | None => None
      | Some cb =>
          Some (commit sys
                  (execAll cb
                     (mkSystem (modal sys) (isModalOpen sys) (inFlight sys)
                               (delete n (timers sys)) (issued sys) (stored sys)
                               (exiting sys))))
      end
  | ExitComplete =>
      if isModalOpen sys then None
      else
        match exiting sys with
        | Some _ =>
            Some (mkSystem (modal sys) false (inFlight sys) (timers sys)
                           (issued sys) (stored sys) None)
        | None => None
        end
  end.

Fixpoint play (sys : System) (evs : list Event) : option System :=
  match evs with
  | [] => Some sys
  | e :: evs' =>
      match step sys e with
      | Some sys' => play sys' evs'
      | None => None
      end
  end.

Definition is_SubmitForm (e : Event) : bool :=
  match e with SubmitForm => true | _ => false end.

Definition submissions (evs : list Event) : nat :=
  length (List.filter is_SubmitForm evs).

(** A document of the collection as the dialog writes it. *)
Definition wellFormedRequest (w : string * DocumentData) : Prop :=
  exists e c : string,
    w = ("demo-requests",
         [ ("email", StringValue e); ("company", StringValue c);
           ("timestamp", ServerTimestamp); ("status", StringValue "pending") ]).

(** *** Invariant and scenarios *)

(** Everything ever sent to or accepted by the store is a demo request with
    the four fields, and every pending timer is the auto-close of a
    success. *)
Record Inv (sys : System) : Prop := mkInv {
  inv_pending : Forall (fun d => wellFormedRequest ("demo-requests", d)) (inFlight sys);
  inv_issued : Forall wellFormedRequest (issued sys);
  inv_stored : Forall wellFormedRequest (stored sys);
  inv_timers : Forall (fun cb => cb = autoClose) (timers sys)
}.

(** The page with the contents of the store replaced. *)
Definition with_stored (sto : list (string * DocumentData)) (sys : System) : System :=
  mkSystem (modal sys) (isModalOpen sys) (inFlight sys) (timers sys) (issued sys) sto
           (exiting sys).

(** A visitor who opened the dialog and filled in both inputs. *)
Definition filled : list Event :=
  [ ClickGetStarted; TypeEmail "ana@example.org"; TypeCompany "Example Org" ].

Definition ana : State := mkState "ana@example.org" "Example Org" false false "".
Definition li : State := mkState "li@example.org" "Other Org" false false "".


(** A second visit: the first request is accepted and the dialog closes itself,
    the second one is rejected. *)
Definition twoSubmissions : list Event :=
  filled ++ [ SubmitForm; WriteSettles 0 Accepted; TimerFires 0;
              ClickGetStarted; TypeEmail "li@example.org"; TypeCompany "Other Org";
              SubmitForm; WriteSettles 0 (Rejected (mkError "unavailable" "offline")) ].

Definition afterTwoSubmissions : System :=
  mkSystem (mkState "li@example.org" "Other Org" false false failureMessage) true [] []
    [ ("demo-requests", demoRequest ana); ("demo-requests", demoRequest li) ]
    [ ("demo-requests", demoRequest ana) ]
    None.


(** The visitor closes the filled dialog and submits the form while it is
    fading out. *)
Definition submitWhileExiting : list Event :=
  filled ++ [ ClickClose; SubmitForm ].

End BookDemoModal.

(** ** The scroll-driven camera *)

Module ArequipaScrollMap.

(** One entry of [this.mapStates]: the camera parameters and the style URL. *)
Record CameraState := mkCamera {
  center : float * float;
  zoom : float;
  pitch : float;
  bearing : float;
  style : string
}.

Definition satellite_streets : string :=
  "mapbox://styles/mapbox/satellite-streets-v12".
Definition standard : string := "mapbox://styles/mapbox/standard".

(** The own properties of the object literal assigned to [this.mapStates]. *)
Definition mapStates : gmap string CameraState :=
  list_to_map
    [ ("intro", mkCamera (0, 0)%float 3%float 0%float 0%float satellite_streets);
      ("historical",
        mkCamera (-71.5375, -16.4090)%float 6%float 0%float 0%float satellite_streets);
      ("architectural",
        mkCamera (-71.5375, -16.4090)%float 8%float 15%float 10%float satellite_streets);
      ("cultural",
        mkCamera (-71.5375, -16.4090)%float 9%float 60%float (-30)%float satellite_streets);
      ("data", mkCamera (-71.537, -16.399)%float 18%float 60%float 0%float standard);
      ("conclusion", mkCamera (-71.537, -16.399)%float 17%float 60%float 0%float standard) ].

Definition narrativeKeys : list string :=
  [ "intro"; "historical"; "architectural"; "cultural"; "data"; "conclusion" ].

(** An object literal inherits from [Object.prototype]; these are the property
    names a bracket lookup finds there when the object has no own property of
    that name.  Each holds a function, and [__proto__] the prototype object. *)
Definition Object_prototype : list string :=
  [ "constructor"; "hasOwnProperty"; "isPrototypeOf"; "propertyIsEnumerable";
    "toLocaleString"; "toString"; "valueOf"; "__proto__";
    "__defineGetter__"; "__defineSetter__"; "__lookupGetter__"; "__lookupSetter__" ].

(** The value of [this.mapStates[stateKey]]. *)
Inductive Property :=
| own (c : CameraState)
| inherited (name : string)
| undefined.

Definition getProperty (stateKey : string) : Property :=
  match mapStates !! stateKey with
  | Some c => own c
  | None =>
      if bool_decide (stateKey ∈ Object_prototype) then inherited stateKey
      else undefined
  end.

(** [!mapState] is true for [undefined] only: objects and functions are
    truthy. *)
Definition truthy (p : Property) : bool :=
  match p with undefined => false | _ => true end.

(** Member access on the looked-up value; the inherited functions have none of
    these members, so they read as [undefined] ([None]). *)
Definition get_center (p : Property) : option (float * float) :=
  match p with own c => Some (center c) | _ => None end.
Definition get_zoom (p : Property) : option float :=
  match p with own c => Some (zoom c) | _ => None end.
Definition get_pitch (p : Property) : option float :=
  match p with own c => Some (pitch c) | _ => None end.
Definition get_bearing (p : Property) : option float :=
  match p with own c => Some (bearing c) | _ => None end.
Definition get_style (p : Property) : option string :=
  match p with own c => Some (style c) | _ => None end.

(** The argument of [map.easeTo]. *)
Record EaseOptions := mkEase {
  ease_center : option (float * float);
  ease_zoom : option float;
  ease_pitch : option float;
  ease_bearing : option float;
  duration : Z
}.

(** The calls the driver makes on the map library, the console, the timer
    queue and its own helper methods, in program order. *)
Inductive Effect :=
| console_warn (text : string)
| console_log (text : string)
| console_log_panel (mapState : option string) (panelIndex : nat)
| setStyle (url : option string)
| easeTo (options : EaseOptions)
| setTimeout_applyLightingForState (stateKey : string) (ms : Z)
| configure3DBuildingsForStandardStyle
| updateProgressBar.

(** A content panel: the DOM node (its identity) and [dataset.mapState]. *)
Record Panel := mkPanel { node : nat; dataset_mapState : option string }.

(** The fields of the driver object that the two methods read and write;
    [mapCreated] says that [this.map] is not [null]. *)
Record Driver := mkDriver {
  mapCreated : bool;
  isLoaded : bool;
  currentState : option string;
  reducedMotion : bool;
  contentPanels : list Panel;
  currentPanelIndex : nat
}.

Definition set_currentState (d : Driver) (k : option string) : Driver :=
  mkDriver (mapCreated d) (isLoaded d) k (reducedMotion d) (contentPanels d)
           (currentPanelIndex d).

Definition set_currentPanelIndex (d : Driver) (i : nat) : Driver :=
  mkDriver (mapCreated d) (isLoaded d) (currentState d) (reducedMotion d)
           (contentPanels d) i.

(** [updateMapState(stateKey)]; [styleName] is what [this.map.getStyle().name]
    returns at the time of the call.  Calls into the map library are taken to
    return. *)
Definition updateMapState (d : Driver) (styleName : option string)
    (stateKey : string) : Driver * list Effect :=
  if negb (mapCreated d) || negb (isLoaded d) then (d, [])
  else
    let mapState := getProperty stateKey in
    if negb (truthy mapState) then
      (d, [ console_warn (String.append "Map state not found for: " stateKey) ])
    else
      (set_currentState d (Some stateKey),
       (if bool_decide (styleName ≠ get_style mapState)
        then [ setStyle (get_style mapState) ] else [])
       ++ (if bool_decide (currentState d = Some "data") && String.eqb stateKey "conclusion"
           then [ console_log "Maintaining same view from data to conclusion - no animation" ]
           else [ easeTo (mkEase (get_center mapState) (get_zoom mapState)
                                 (get_pitch mapState) (get_bearing mapState)
                                 (if reducedMotion d then 0 else 2000)) ])
       ++ [ setTimeout_applyLightingForState stateKey 100 ]
       ++ (if String.eqb stateKey "data" || String.eqb stateKey "conclusion"
           then [ configure3DBuildingsForStandardStyle ] else [])).

(** [Array.prototype.indexOf] on DOM nodes; [None] stands for [-1]. *)
Fixpoint indexOf (panels : list Panel) (p : Panel) : option nat :=
  match panels with
  | [] => None
  | q :: rest =>
      if Nat.eqb (node q) (node p) then Some 0
      else option_map S (indexOf rest p)
  end.

(** A [dataset] value is truthy when it is present and not the empty string. *)
Definition present (v : option string) : option string :=
  match v with
  | Some s => if String.eqb s "" then None else Some s
  | None => None
  end.

(** [updateActivePanel(activePanel)], called by the intersection observer for
    every panel it reports as intersecting. *)
Definition updateActivePanel (d : Driver) (styleName : option string)
    (activePanel : Panel) : Driver * list Effect :=
  match indexOf (contentPanels d) activePanel with
  | None => (d, [])
  | Some panelIndex =>
      if Nat.eqb panelIndex (currentPanelIndex d) then (d, [])
      else
        let d1 := set_currentPanelIndex d panelIndex in
        let mapState := dataset_mapState activePanel in
        let '(d2, fx) :=
          match present mapState with
          | Some k => updateMapState d1 styleName k
          | None => (d1, [])
          end in
        (d2, [ console_log_panel mapState panelIndex ] ++ fx ++ [ updateProgressBar ])
  end.

(** The camera pushes among the effects of a call. *)
Definition pushes (fx : list Effect) : list EaseOptions :=
  omap (fun e => match e with easeTo o => Some o | _ => None end) fx.

(** The parameter set of a table entry, as [easeTo] receives it. *)
Definition parameters (c : CameraState) (reduced : bool) : EaseOptions :=
  mkEase (Some (center c)) (Some (zoom c)) (Some (pitch c)) (Some (bearing c))
         (if reduced then 0 else 2000).

(** *** Scenarios *)

(** A driver whose map has loaded and which last showed [k]. *)
Definition loaded (k : option string) (panels : list Panel) (i : nat) : Driver :=
  mkDriver true true k false panels i.

(** The six panels of the page, in document order. *)
Definition sixPanels : list Panel :=
  [ mkPanel 0 (Some "intro"); mkPanel 1 (Some "historical");
    mkPanel 2 (Some "architectural"); mkPanel 3 (Some "cultural");
    mkPanel 4 (Some "data"); mkPanel 5 (Some "conclusion") ].

End ArequipaScrollMap.

(** ** The parallax layers *)

Module TerritoryLayers.

Local Open Scope float_scope.

(** [Math.max] and [Math.min] on two numbers: [NaN] if either is [NaN], and
    [+0] counts as larger than [-0]. *)
Definition Math_max (a b : float) : float :=
  if is_nan a || is_nan b then nan
  else if a <? b then b
  else if b <? a then a
  else if is_zero a && get_sign a then b else a.

Definition Math_min (a b : float) : float :=
  if is_nan a || is_nan b then nan
  else if a <? b then a
  else if b <? a then b
  else if is_zero a && get_sign a then a else b.

(** [const ease = (t) => t < 0.5 ? 2 * t * t : -1 + (4 - 2 * t) * t]. *)
Definition ease (t : float) : float :=
  if t <? 0.5 then 2 * t * t else -1 + (4 - 2 * t) * t.

(** The two members of [getBoundingClientRect()] that the frame reads. *)
Record DOMRect := mkRect { top : float; height : float }.

(** What the frame writes on one layer: the argument of [translateZ] in its
    [style.transform], its [style.opacity], and whether it carries the class
    [open]. *)
Record LayerStyle := mkLayer {
  translateZ : float;
  opacity : string;
  open : bool
}.

(** The layer index as a JavaScript number. *)
Definition index (i : nat) : float := of_uint63 (Uint63.of_Z (Z.of_nat i)).

(** The operand of the clamp. *)
Definition ratio (rect : DOMRect) (innerHeight : float) : float :=
  - top rect / (height rect - innerHeight).

Definition scrollProgress (rect : DOMRect) (innerHeight : float) : float :=
  Math_max 0 (Math_min 1 (ratio rect innerHeight)).

(** The body of [layers.forEach((el, i) => ...)]. *)
Definition layer (ep : float) (i : nat) : LayerStyle :=
  let baseZ := index i * 120 in
  let additionalZ := index i * 180 * ep in
  mkLayer (baseZ + additionalZ) "1" (Nat.ltb 0 i || (0.10 <? ep)).

(** One run of [frame]: the scalar it computed, its eased value, what it wrote
    on each of the [layers] elements, and that it asked for the next frame. *)
Record Frame := mkFrame {
  progress : float;
  eased : float;
  styles : list LayerStyle;
  requestedNext : bool
}.

(** [frame()]; [container] is [containerRef.current], [None] when it is
    [null], in which case the frame returns at once and requests nothing. *)
Definition frame (container : option DOMRect) (innerHeight : float)
    (layers : nat) : option Frame :=
  match container with
  | None => None
  | Some rect =>
      let scrollProgress := scrollProgress rect innerHeight in
      let ep := ease (Math_min (scrollProgress / 0.80) 1) in
      Some (mkFrame scrollProgress ep (map (layer ep) (seq 0 layers)) true)
  end.

End TerritoryLayers.

(** ** The scroll-driven camera: the other methods of the driver *)

Module ArequipaScrollMapMethods.
Import ArequipaScrollMap.

(** A number of panels as a JavaScript number. *)
Definition number (n : nat) : float := of_uint63 (Uint63.of_Z (Z.of_nat n)).

(** [updateProgressBar()]: the percentage it writes as the width of the bar,
    [None] when it writes nothing (no [#progressBar] element, or no panel). *)
Definition updateProgressBar_width (progressBar : bool) (d : Driver) : option float :=
  if progressBar && Nat.ltb 0 (length (contentPanels d))
  then Some (number (currentPanelIndex d)
               / number (length (contentPanels d) - 1) * 100)%float
  else None.

(** The callback of the panel observer: every entry that is intersecting is
    passed to [updateActivePanel], in order.  An entry carries its target,
    its [isIntersecting] flag and what [getStyle().name] returns at that
    moment. *)
Record Entry := mkEntry {
  target : Panel;
  isIntersecting : bool;
  styleNameThen : option string
}.

Fixpoint panelObserver (d : Driver) (entries : list Entry) : Driver * list Effect :=
  match entries with
  | [] => (d, [])
  | e :: rest =>
      let '(d1, fx1) :=
        if isIntersecting e then updateActivePanel d (styleNameThen e) (target e)
        else (d, []) in
      let '(d2, fx2) := panelObserver d1 rest in
      (d2, fx1 ++ fx2)
  end.

(** The token of last resort in [getMapboxToken]. *)
Definition developmentToken : string :=
  "pk.eyJ1IjoibWF0dGVhOTkiLCJhIjoiY2xkY2V0eHF2MDhhYjNub2Jya2h0dHh5diJ9.fXChvC5vSrDhDaNNLLbb0w".

(** [getMapboxToken()].  [envToken] is [process.env.MAPBOX_TOKEN] ([None] when
    [process] or [process.env] is missing or the variable is unset);
    [dataToken] is [this.mapContainer?.dataset.mapboxToken]. *)
Definition getMapboxToken (envToken dataToken : option string) : string :=
  match present envToken with
  | Some t => t
  | None =>
      match present dataToken with
      | Some t => if negb (String.eqb t "MAPBOX_TOKEN_HERE") then t else developmentToken
      | None => developmentToken
      end
  end.

(** The start of [initializeMap()]: it throws when the token is falsy. *)
Definition initializeMap_token (envToken dataToken : option string) : string + string :=
  let token := getMapboxToken envToken dataToken in
  if String.eqb token "" then inr "Mapbox token not found" else inl token.

(** What [pinMap] and [unpinMap] write on the map container: its class list
    (the order of the tokens is not observable) and six inline styles. *)
Record MapContainer := mkContainer {
  classList : gset string;
  position : string;
  top : string;
  left : string;
  width : string;
  height : string;
  zIndex : string
}.

(** [pinMap()] and [unpinMap()]; the container is [None] when
    [this.mapContainer] is [null]. *)
Definition pinMap (c : option MapContainer) : option MapContainer :=
  match c with
  | Some c =>
      Some (mkContainer ({[ "pinned-map" ]} ∪ classList c)
              "fixed" "0" "0" "100vw" "100vh" "1")
  | None => None
  end.

Definition unpinMap (c : option MapContainer) : option MapContainer :=
  match c with
  | Some c =>
      Some (mkContainer (classList c ∖ {[ "pinned-map" ]})
              "relative" "auto" "auto" "100%" "400px" "auto")
  | None => None
  end.

(** The callback of the observer of the scrollytelling section: each entry
    unpins the map when it is not intersecting and pins it otherwise. *)
Definition unpinObserver (c : option MapContainer) (entries : list bool)
    : option MapContainer :=
  foldl (fun c isIntersecting => if negb isIntersecting then unpinMap c else pinMap c)
        c entries.

(** *** [debounce(func, wait)]

    The closure keeps [timeout], the handle of the timer it started last;
    the browser keeps the table of timers not yet fired, each with the
    arguments its [later] closure captured.  [invoked] lists the calls of
    [func] so far. *)
Record Debounced (A : Type) := mkDebounced {
  timeout : option nat;
  pendingTimers : list (nat * A);
  nextHandle : nat;
  invoked : list A
}.
Arguments mkDebounced {A}.
Arguments timeout {A}.
Arguments pendingTimers {A}.
Arguments nextHandle {A}.
Arguments invoked {A}.

Definition debounce {A : Type} : Debounced A := mkDebounced None [] 1 [].

(** [clearTimeout(handle)]: an unknown or undefined handle is ignored. *)
Definition clearTimeout {A : Type} (h : option nat) (table : list (nat * A))
    : list (nat * A) :=
  match h with
  | Some h => List.filter (fun t => negb (Nat.eqb (fst t) h)) table
  | None => table
  end.

(** [executedFunction(...args)]. *)
Definition executedFunction {A : Type} (args : A) (s : Debounced A) : Debounced A :=
  let table := clearTimeout (timeout s) (pendingTimers s) in
  mkDebounced (Some (nextHandle s)) (table ++ [(nextHandle s, args)])
              (S (nextHandle s)) (invoked s).

(** The timer with handle [h] fires and runs its [later]; [None] when no such
    timer is pending. *)
Definition timerFires {A : Type} (h : nat) (s : Debounced A) : option (Debounced A) :=
  match List.find (fun t => Nat.eqb (fst t) h) (pendingTimers s) with
  | Some (_, args) =>
      let table := clearTimeout (Some h) (pendingTimers s) in
      Some (mkDebounced (timeout s) (clearTimeout (timeout s) table)
                        (nextHandle s) (invoked s ++ [args]))
  | None => None
  end.

Inductive DebounceEvent (A : Type) :=
| Called (args : A)
| Fired (handle : nat).
Arguments Called {A}.
Arguments Fired {A}.

Fixpoint debounceRun {A : Type} (s : Debounced A) (evs : list (DebounceEvent A))
    : option (Debounced A) :=
  match evs with
  | [] => Some s
  | Called args :: rest => debounceRun (executedFunction args s) rest
  | Fired h :: rest =>
      match timerFires h s with
      | Some s' => debounceRun s' rest
      | None => None
      end
  end.

(** The arguments of the calls of a run, in order. *)
Definition calledWith {A : Type} (evs : list (DebounceEvent A)) : list A :=
  omap (fun e => match e with Called a => Some a | Fired _ => None end) evs.

End ArequipaScrollMapMethods.

(** ** The request-a-PDF form of the static page *)

Module DemoFormHandler.

(** What [FormData.get] returns for the two fields the handler reads; [None]
    is [null], the form has no such control. *)
Record FormValues := mkValues {
  email : option string;
  captcha : option string
}.

(** The [.btn-submit] element. *)
Record Button := mkButton { disabled : bool; textContent : string }.

(** The form: what its controls hold, what [reset()] puts back, and its
    submit button if it has one. *)
Record Form := mkForm {
  values : FormValues;
  defaults : FormValues;
  submitBtn : option Button
}.

(** The part of the document the handler writes: whether the modal carries
    the class [show], its [aria-hidden] attribute, [body.style.overflow], and
    the form ([None] when there is no [#demoForm]). *)
Record Page := mkPage {
  shown : bool;
  ariaHidden : option string;
  bodyOverflow : string;
  form : option Form
}.

Definition reset (f : Form) : Form := mkForm (defaults f) (defaults f) (submitBtn f).

(** [openModal()]; the focus timer does not write the page. *)
Definition openModal (p : Page) : Page :=
  mkPage true (Some "false") "hidden" (form p).

(** [closeModal()]. *)
Definition closeModal (p : Page) : Page :=
  mkPage false (Some "true") "" (reset <$> form p).

(** The [keydown] listener of the document. *)
Definition onKeydown (key : string) (p : Page) : Page :=
  if String.eqb key "Escape" && shown p then closeModal p else p.

(** The JSON body of the request. *)
Record Body := mkBody {
  body_email : string;
  body_message : string;
  body_replyto : string;
  body_subject : string;
  body_to : string
}.

Definition thanks : string :=
  "Thank you for your interest in Polisense.AI! 

We have received your request for our PDF document. You will be redirected to access the document shortly.

This document contains detailed information about our energy access solutions and how we're helping cities transform lives.

Best regards,
The Polisense.AI Team".

Definition body (email : string) : Body :=
  mkBody email thanks email "Thank you for your interest in Polisense.AI"
         "bruno.galdos@rwth-aachen.de".

(** How [fetch] settles: a response with its [ok] flag, or a rejection. *)
Inductive FetchResult :=
| Responded (ok : bool)
| NetworkError.

(** What reaches the [catch] block. *)
Inductive Failure :=
| FailedToSendEmail
| Rejection.

Inductive Action :=
| preventDefault
| showMessage (text type : string)
| fetch (url method accept contentType : string) (json : Body)
| setTimeout_openPdfAndClose (url : string) (ms : Z)
| console_error (label : string) (error : Failure).

(** A JavaScript string is truthy when it is present and not empty. *)
Definition truthy (v : option string) : option string :=
  match v with
  | Some s => if String.eqb s "" then None else Some s
  | None => None
  end.

(** [handleSubmit(e)] up to the awaited [fetch]: it returns after the
    validation message, throws on a form without a submit button, or sends
    the request with the button disabled. *)
Inductive Started :=
| Returned (actions : list Action)
| Threw (actions : list Action)
| Awaiting (f : Form) (actions : list Action).

Definition handleSubmit_start (f : Form) : Started :=
  match truthy (email (values f)), truthy (captcha (values f)) with
  | Some email, Some _ =>
      match submitBtn f with
      | None => Threw [ preventDefault ]
      | Some _ =>
          Awaiting (mkForm (values f) (defaults f) (Some (mkButton true "Sending...")))
            [ preventDefault;
              fetch "https://formspree.io/f/mldpgkdj" "POST" "application/json"
                    "application/json" (body email) ]
      end
  | _, _ =>
      Returned [ preventDefault;
                 showMessage "Please fill in all required fields." "error" ]
  end.

(** [handleSubmit(e)] from the settling of the request: the rest of the
    [try] block or the [catch] block, then the [finally] block, which writes
    the button the handler looked up before the request. *)
Definition handleSubmit_settle (r : FetchResult) (f : Form) : Form * list Action :=
  (mkForm (values f) (defaults f) (Some (mkButton false "Receive PDF")),
   match r with
   | Responded true =>
       [ showMessage "Thank you! Redirecting you to the PDF document..." "success";
         setTimeout_openPdfAndClose
           "https://drive.google.com/file/d/1vwmuLqFAROH7sFZpivGxETLkRhM5Nb44/view" 1500 ]
   | Responded false =>
       [ console_error "Email send error:" FailedToSendEmail;
         showMessage
           "Sorry, there was an error sending your PDF. Please try again or contact us directly."
           "error" ]
   | NetworkError =>
       [ console_error "Email send error:" Rejection;
         showMessage
           "Sorry, there was an error sending your PDF. Please try again or contact us directly."
           "error" ]
   end).

(** Projections of a run. *)
Definition requests (actions : list Action) : list (string * Body) :=
  omap (fun a => match a with fetch url _ _ _ b => Some (url, b) | _ => None end) actions.

Definition messages (actions : list Action) : list (string * string) :=
  omap (fun a => match a with showMessage t ty => Some (t, ty) | _ => None end) actions.

Definition redirects (actions : list Action) : list string :=
  omap (fun a => match a with setTimeout_openPdfAndClose u _ => Some u | _ => None end)
       actions.

Definition actionsOf (s : Started) : list Action :=
  match s with Returned a | Threw a | Awaiting _ a => a end.

(** The form with another answer in its captcha field. *)
Definition withCaptcha (c : option string) (f : Form) : Form :=
  mkForm (mkValues (email (values f)) c) (defaults f) (submitBtn f).

End DemoFormHandler.

(** ** The parallax layers: the effect that drives the frames *)

Module TerritoryLayersEffect.

(** The two functions the effect hands to [requestAnimationFrame]. *)
Inductive Callback :=
| showScene
| frameCallback.

(** The refs of the component ([true]: [current] is an element), the handle
    kept in [animationFrameRef] ([None]: still [undefined]), the browser's
    list of animation frame callbacks with its next handle (handles start at
    1), whether a cleanup returned by the effect is still to be run, and
    whether the scene carries the class [show]. *)
Record Component := mkComponent {
  containerRef : bool;
  sceneRef : bool;
  animationFrameRef : option nat;
  callbacks : list (nat * Callback);
  nextHandle : nat;
  cleanupPending : bool;
  sceneShown : bool
}.

Definition unmounted : Component := mkComponent false false None [] 1 false false.

(** [useEffect(() => { ... }, [])]: the body of the effect. *)
Definition effect (c : Component) : Component :=
  if negb (containerRef c) || negb (sceneRef c) then c
  else
    mkComponent (containerRef c) (sceneRef c) (Some (S (nextHandle c)))
      (callbacks c ++ [(nextHandle c, showScene); (S (nextHandle c), frameCallback)])
      (S (S (nextHandle c))) true (sceneShown c).

(** [frame()], as far as the loop goes: it returns at once without a
    container, and otherwise writes the layers and asks for the next frame. *)
Definition frame (c : Component) : Component :=
  if negb (containerRef c) then c
  else
    mkComponent (containerRef c) (sceneRef c) (Some (nextHandle c))
      (callbacks c ++ [(nextHandle c, frameCallback)])
      (S (nextHandle c)) (cleanupPending c) (sceneShown c).

(** The arrow function that shows the scene. *)
Definition show (c : Component) : Component :=
  if sceneRef c
  then mkComponent (containerRef c) (sceneRef c) (animationFrameRef c) (callbacks c)
         (nextHandle c) (cleanupPending c) true
  else c.

(** The cleanup returned by the effect; a handle is truthy when it is not 0. *)
Definition cleanup (c : Component) : Component :=
  mkComponent (containerRef c) (sceneRef c) (animationFrameRef c)
    (match animationFrameRef c with
     | Some h =>
         if Nat.eqb h 0 then callbacks c
         else List.filter (fun cb => negb (Nat.eqb (fst cb) h)) (callbacks c)
     | None => callbacks c
     end)
    (nextHandle c) false (sceneShown c).

(** What React and the browser do to the component. *)
Inductive Event :=
| AttachRefs
| RunEffect
| AnimationFrame
| DetachRefs
| RunCleanup.

Definition setRefs (b : bool) (c : Component) : Component :=
  mkComponent b b (animationFrameRef c) (callbacks c) (nextHandle c)
    (cleanupPending c) (sceneShown c).

(** One step.  Refs are attached and the effect is run only while no cleanup
    is outstanding; an animation frame runs the oldest callback. *)
Definition step (c : Component) (e : Event) : option Component :=
  match e with
  | AttachRefs => if cleanupPending c then None else Some (setRefs true c)
  | RunEffect => if cleanupPending c then None else Some (effect c)
  | DetachRefs => Some (setRefs false c)
  | RunCleanup => if cleanupPending c then Some (cleanup c) else None
  | AnimationFrame =>
      match callbacks c with
      | [] => None
      | (_, cb) :: rest =>
          let c' := mkComponent (containerRef c) (sceneRef c) (animationFrameRef c)
                      rest (nextHandle c) (cleanupPending c) (sceneShown c) in
          Some (match cb with showScene => show c' | frameCallback => frame c' end)
      end
  end.

Fixpoint run (c : Component) (evs : list Event) : option Component :=
  match evs with
  | [] => Some c
  | e :: rest =>
      match step c e with
      | Some c' => run c' rest
      | None => None
      end
  end.

(** The handles of the pending runs of [frame]. *)
Definition pendingFrames (c : Component) : list nat :=
  omap (fun cb => match snd cb with frameCallback => Some (fst cb) | showScene => None end)
       (callbacks c).

End TerritoryLayersEffect.

(** * Properties of the lead-capture dialog *)

Module BookDemoModalFacts.
Import BookDemoModal.

(** ** How handler calls act on the page *)

Lemma execAll_cons (c : Call) (calls : list Call) (sys : System) :
  execAll (c :: calls) sys = execAll calls (exec sys c).
Proof. reflexivity. Qed.

Lemma execAll_stored (calls : list Call) (sys : System) :
  stored (execAll calls sys) = stored sys.
Proof.
  revert sys. induction calls as [|c calls IH]; intros sys; [reflexivity|].
  rewrite execAll_cons, IH. destruct c; reflexivity.
Qed.

Lemma commit_stored (before after : System) :
  stored (commit before after) = stored after.
Proof. unfold commit. by destruct (_ && _). Qed.

Lemma commit_issued (before after : System) :
  issued (commit before after) = issued after.
Proof. unfold commit. by destruct (_ && _). Qed.

Lemma commit_Inv (before after : System) : Inv after -> Inv (commit before after).
Proof. intros [? ? ? ?]. unfold commit. by destruct (_ && _). Qed.

Lemma handleClose_cases (r : State) :
  handleClose r = []
  \/ handleClose r
     = [ setEmail ""; setCompany ""; setError ""; setIsSuccess false; onClose ].
Proof. unfold handleClose. destruct (negb _); auto. Qed.

(** ** Invariants of the page *)

Lemma wellFormed_demoRequest (s : State) :
  wellFormedRequest ("demo-requests", demoRequest s).
Proof. by exists (email s), (company s). Qed.

Lemma Inv_boot : Inv boot.
Proof. by split; cbn. Qed.

Lemma timer_is_autoClose (sys : System) (n : nat) (cb : list Call) :
  Inv sys -> timers sys !! n = Some cb -> cb = autoClose.
Proof.
  intros HI Hn. pose proof (inv_timers sys HI) as Htim.
  rewrite Forall_forall in Htim. apply Htim. by eapply list_elem_of_lookup_2.
Qed.

Lemma Inv_step (sys sys' : System) (e : Event) :
  Inv sys -> step sys e = Some sys' -> Inv sys'.
Proof.
  intros HI Hstep. pose proof HI as [Hpend Hiss Hsto Htim].
  destruct e; unfold step in Hstep.
  - (* ClickGetStarted *)
    injection Hstep as <-. by split.
  - (* TypeEmail *)
    destruct (formShown _); [|discriminate]. injection Hstep as <-.
    by split.
  - (* TypeCompany *)
    destruct (formShown _); [|discriminate]. injection Hstep as <-.
    by split.
  - (* SubmitForm *)
    destruct (onScreen sys) as [r|]; [|discriminate].
    destruct (canSubmit _); [|discriminate]. injection Hstep as <-.
    split; cbn; auto.
    + apply Forall_app; split; [done|]. repeat constructor.
      apply wellFormed_demoRequest.
    + apply Forall_app; split; [done|]. repeat constructor.
      apply wellFormed_demoRequest.
  - (* ClickClose *)
    destruct (onScreen sys) as [r|]; [|discriminate]. injection Hstep as <-.
    apply commit_Inv. by destruct (handleClose_cases r) as [-> | ->].
  - (* WriteSettles *)
    destruct (inFlight sys !! n) as [d|] eqn:Hn; [|discriminate].
    injection Hstep as <-.
    assert (Hd : wellFormedRequest ("demo-requests", d)).
    { rewrite Forall_forall in Hpend. apply Hpend. by eapply list_elem_of_lookup_2. }
    destruct r; split; cbn; auto using Forall_delete.
    + apply Forall_app; split; [done|]. by repeat constructor.
    + apply Forall_app; split; [done|]. by repeat constructor.
  - (* TimerFires *)
    destruct (timers sys !! n) as [cb|] eqn:Hn; [|discriminate].
    injection Hstep as <-.
    rewrite (timer_is_autoClose sys n cb HI Hn).
    apply commit_Inv. split; cbn; auto. by apply Forall_delete.
  - (* ExitComplete *)
    destruct (isModalOpen sys); [discriminate|].
    destruct (exiting sys); [|discriminate]. injection Hstep as <-. by split.
Qed.

Lemma Inv_play (evs : list Event) (sys sys' : System) :
  Inv sys -> play sys evs = Some sys' -> Inv sys'.
Proof.
  revert sys. induction evs as [|e evs IH]; intros sys HI Hplay; cbn in Hplay.
  - by injection Hplay as <-.
  - destruct (step sys e) as [sys1|] eqn:Hstep; [|discriminate].
    eapply IH; [|exact Hplay]. by eapply Inv_step.
Qed.

(** What one turn of the event loop sends to the store: one document when
    the turn is a submission, nothing otherwise. *)
Lemma step_issued (sys sys' : System) (e : Event) :
  Inv sys -> step sys e = Some sys' ->
  length (issued sys') = length (issued sys) + (if is_SubmitForm e then 1 else 0).
Proof.
  intros HI Hstep. destruct e; unfold step in Hstep; cbn [is_SubmitForm];
    rewrite ?Nat.add_0_r.
  - by injection Hstep as <-.
  - destruct (formShown sys); [|discriminate]. by injection Hstep as <-.
  - destruct (formShown sys); [|discriminate]. by injection Hstep as <-.
  - destruct (onScreen sys) as [r|]; [|discriminate].
    destruct (canSubmit sys); [|discriminate]. injection Hstep as <-.
    cbn. by rewrite length_app.
  - destruct (onScreen sys) as [r|]; [|discriminate]. injection Hstep as <-.
    rewrite commit_issued. by destruct (handleClose_cases r) as [-> | ->].
  - destruct (inFlight sys !! n); [|discriminate]. injection Hstep as <-.
    by destruct r.
  - destruct (timers sys !! n) as [cb|] eqn:Hn; [|discriminate].
    injection Hstep as <-.
    by rewrite commit_issued, (timer_is_autoClose sys n cb HI Hn).
  - destruct (isModalOpen sys); [discriminate|].
    destruct (exiting sys); [|discriminate]. by injection Hstep as <-.
Qed.

(** The store only grows: a turn appends at most the accepted document. *)
Lemma step_stored (sys sys' : System) (e : Event) :
  step sys e = Some sys' -> stored sys `prefix_of` stored sys'.
Proof.
  intros Hstep. destruct e; unfold step in Hstep.
  - by injection Hstep as <-.
  - destruct (formShown sys); [|discriminate]. by injection Hstep as <-.
  - destruct (formShown sys); [|discriminate]. by injection Hstep as <-.
  - destruct (onScreen sys) as [r|]; [|discriminate].
    destruct (canSubmit sys); [|discriminate]. by injection Hstep as <-.
  - destruct (onScreen sys) as [r|]; [|discriminate]. injection Hstep as <-.
    by rewrite commit_stored, execAll_stored.
  - destruct (inFlight sys !! n); [|discriminate]. injection Hstep as <-.
    rewrite execAll_stored. cbn. destruct r; [by eexists|done].
  - destruct (timers sys !! n); [|discriminate]. injection Hstep as <-.
    by rewrite commit_stored, execAll_stored.
  - destruct (isModalOpen sys); [discriminate|].
    destruct (exiting sys); [|discriminate]. by injection Hstep as <-.
Qed.

Lemma execAll_with_stored (calls : list Call) (sto : list (string * DocumentData))
    (sys : System) :
  with_stored sto (execAll calls sys) = execAll calls (with_stored sto sys).
Proof.
  revert sys. induction calls as [|c calls IH]; intros sys; [reflexivity|].
  rewrite !execAll_cons, IH. by destruct c.
Qed.

Lemma commit_with_stored (sto : list (string * DocumentData)) (before after : System) :
  with_stored sto (commit before after)
  = commit (with_stored sto before) (with_stored sto after).
Proof. unfold commit. cbn. by destruct (_ && _). Qed.

(** Nothing the page does depends on what the store holds. *)
Lemma step_ignores_store (sto : list (string * DocumentData)) (sys : System)
    (e : Event) :
  with_stored [] <$> step (with_stored sto sys) e = with_stored [] <$> step sys e.
Proof.
  destruct sys as [s o fl ts iss sto0 ex].
  assert (Hexec : forall calls sys1 sys2,
             with_stored [] sys1 = with_stored [] sys2 ->
             with_stored [] (execAll calls sys1) = with_stored [] (execAll calls sys2)).
  { intros calls sys1 sys2 H. by rewrite !execAll_with_stored, H. }
  assert (Hcommit : forall b1 b2 a1 a2,
             with_stored [] b1 = with_stored [] b2 ->
             with_stored [] a1 = with_stored [] a2 ->
             with_stored [] (commit b1 a1) = with_stored [] (commit b2 a2)).
  { intros b1 b2 a1 a2 Hb Ha. by rewrite !commit_with_stored, Hb, Ha. }
  destruct e; unfold step, canSubmit, formShown, onScreen;
    cbn [with_stored modal isModalOpen inFlight timers issued stored exiting].
  - reflexivity.
  - destruct (if o then _ else _) as [r|]; [|done]. destruct (negb _); [|done].
    cbn [fmap option_fmap option_map]. f_equal; by apply Hexec.
  - destruct (if o then _ else _) as [r|]; [|done]. destruct (negb _); [|done].
    cbn [fmap option_fmap option_map]. f_equal; by apply Hexec.
  - destruct (if o then _ else _) as [r|]; [|done].
    destruct (_ && _ && _ && _); [|done].
    cbn [fmap option_fmap option_map]. f_equal; by apply Hexec.
  - destruct (if o then _ else _) as [r|]; [|done].
    cbn [fmap option_fmap option_map]. f_equal.
    apply Hcommit; [done|]. by apply Hexec.
  - destruct (fl !! n); [|done]. cbn [fmap option_fmap option_map].
    f_equal; by apply Hexec.
  - destruct (ts !! n); [|done]. cbn [fmap option_fmap option_map].
    f_equal. apply Hcommit; [done|]. by apply Hexec.
  - destruct o; [done|]. by destruct ex.
Qed.

Lemma play_issued (evs : list Event) (sys sys' : System) :
  Inv sys -> play sys evs = Some sys' ->
  length (issued sys') = length (issued sys) + submissions evs.
Proof.
  revert sys. induction evs as [|e evs IH]; intros sys HI Hplay; cbn in Hplay.
  - injection Hplay as <-. cbn. lia.
  - destruct (step sys e) as [sys1|] eqn:Hstep; [|discriminate].
    rewrite (IH sys1) by eauto using Inv_step.
    rewrite (step_issued sys sys1 e HI Hstep).
    unfold submissions. cbn. destruct (is_SubmitForm e); cbn; lia.
Qed.

(** ** A submission made on the open dialog, nothing else pending *)



(** ** The submission whose write is accepted *)




(** ** The submission whose write is rejected *)




(** ** The record written *)

(** C3. The document that a submission sends has exactly four fields: the
    e-mail and the organization as entered (the values of the render that
    handled the submit), the server-timestamp sentinel, and the status
    "pending".  On every run of the page, everything sent to and everything
    kept by the store is such a document of the collection, there are as many
    sent as there were submissions, no turn of the event loop removes or
    changes a stored document, and no turn depends on what the store holds. *)
Theorem demo_request_record (evs : list Event) (sys : System) :
  play boot evs = Some sys ->
  (forall s,
     writes (handleSubmit_request s)
     = [("demo-requests",
         [ ("email", StringValue (email s));
           ("company", StringValue (company s));
           ("timestamp", ServerTimestamp);
           ("status", StringValue "pending") ])])
  /\ (forall r, writes (handleSubmit_settle r) = [])
  /\ (forall s, writes (handleClose s) = [])
  /\ writes autoClose = []
  /\ Forall wellFormedRequest (issued sys)
  /\ Forall wellFormedRequest (stored sys)
  /\ length (issued sys) = submissions evs
  /\ (forall e sys', step sys e = Some sys' -> stored sys `prefix_of` stored sys')
  /\ (forall e sto,
        with_stored [] <$> step (with_stored sto sys) e = with_stored [] <$> step sys e).
Proof.
  intros Hplay.
  pose proof (Inv_play evs boot sys Inv_boot Hplay) as HI.
  split; [reflexivity|]. split; [by intros []|].
  split; [by intros s; unfold handleClose; destruct (negb _)|].
  split; [reflexivity|].
  split; [apply (inv_issued sys HI)|]. split; [apply (inv_stored sys HI)|].
  split; [apply (play_issued evs boot sys Inv_boot Hplay)|].
  split; [intros e sys'; apply step_stored|].
  intros e sto. apply step_ignores_store.
Qed.

Lemma demo_request_record_witness :
  play boot twoSubmissions = Some afterTwoSubmissions
  /\ length (issued afterTwoSubmissions) = 2
  /\ Forall wellFormedRequest (stored afterTwoSubmissions).
Proof.
  split; [reflexivity|]. split; [reflexivity|].
  exact (proj1 (proj2 (proj2 (proj2 (proj2 (proj2
    (demo_request_record twoSubmissions afterTwoSubmissions eq_refl))))))).
Defined.

(** ** Closing *)

(** C6. Whenever [handleClose] calls [onClose], that call is its last one and
    the only one, and the calls before it have reset every field: e-mail and
    company are empty, the error message is empty, the success flag is clear
    (and the submitting flag, which let the close through, is clear too). *)
Theorem handleClose_resets (s : State) :
  closes (handleClose s) <> 0 ->
  exists before,
    handleClose s = before ++ [onClose]
    /\ closes before = 0
    /\ run before s = mkState "" "" false false ""
    /\ run (handleClose s) s = initial.
Proof.
  intros Hcloses. unfold handleClose in *.
  destruct (isSubmitting s) eqn:Hsub; cbn in *; [done|].
  exists [ setEmail ""; setCompany ""; setError ""; setIsSuccess false ].
  cbn. by rewrite Hsub.
Qed.

Lemma handleClose_resets_witness :
  closes (handleClose (mkState "ana@example.org" "Example Org" false true "")) <> 0
  /\ exists before,
       handleClose (mkState "ana@example.org" "Example Org" false true "")
       = before ++ [onClose]
       /\ closes before = 0
       /\ run before (mkState "ana@example.org" "Example Org" false true "")
          = mkState "" "" false false ""
       /\ run (handleClose (mkState "ana@example.org" "Example Org" false true ""))
              (mkState "ana@example.org" "Example Org" false true "")
          = initial.
Proof.
  split; [cbn; lia|].
  apply (handleClose_resets (mkState "ana@example.org" "Example Org" false true "")).
  cbn; lia.
Defined.

(** ** Closing during a write *)






(** ** The failure branch *)

(** C7. The message shown after a rejected write is one fixed string: for
    any two failed submissions, whatever their rejection values and whatever
    the fields held, the error message is the same literal of the source; the
    state after the failure branch, and hence what is rendered, does not
    depend on the rejection value at all. *)
Theorem rejection_message_is_generic (s1 s2 : State) (e1 e2 : FirestoreError) :
  error (run (handleSubmit_settle (Rejected e1)) s1)
  = error (run (handleSubmit_settle (Rejected e2)) s2)
  /\ error (run (handleSubmit_settle (Rejected e1)) s1)
     = "Failed to submit. Please try again."
  /\ run (handleSubmit_settle (Rejected e1)) s1 = run (handleSubmit_settle (Rejected e2)) s1
  /\ run (handleSubmit s1 (Rejected e1)) s1 = run (handleSubmit s1 (Rejected e2)) s1
  /\ (forall isOpen,
        render isOpen (run (handleSubmit_settle (Rejected e1)) s1)
        = render isOpen (run (handleSubmit_settle (Rejected e2)) s1)).
Proof. repeat split. Qed.

(** C9. The failure branch writes the error message and clears the submitting
    flag and nothing else: e-mail, company and the success flag are what they
    were when the write settled, and over the whole handler what they were at
    the submit. *)
Theorem rejection_keeps_input (s s1 : State) (err : FirestoreError) :
  run (handleSubmit_settle (Rejected err)) s1
  = mkState (email s1) (company s1) false (isSuccess s1) failureMessage
  /\ run (handleSubmit s (Rejected err)) s
     = mkState (email s) (company s) false (isSuccess s) failureMessage.
Proof. split; reflexivity. Qed.

End BookDemoModalFacts.

(** * Properties of the scroll-driven camera *)

Module ArequipaScrollMapFacts.
Import ArequipaScrollMap.

(** ** The table *)

Lemma mapStates_dom : dom mapStates = list_to_set narrativeKeys.
Proof. reflexivity. Qed.

Lemma mapStates_table :
  mapStates !! "intro"
    = Some (mkCamera (0, 0)%float 3%float 0%float 0%float satellite_streets)
  /\ mapStates !! "historical"
    = Some (mkCamera (-71.5375, -16.4090)%float 6%float 0%float 0%float satellite_streets)
  /\ mapStates !! "architectural"
    = Some (mkCamera (-71.5375, -16.4090)%float 8%float 15%float 10%float satellite_streets)
  /\ mapStates !! "cultural"
    = Some (mkCamera (-71.5375, -16.4090)%float 9%float 60%float (-30)%float satellite_streets)
  /\ mapStates !! "data"
    = Some (mkCamera (-71.537, -16.399)%float 18%float 60%float 0%float standard)
  /\ mapStates !! "conclusion"
    = Some (mkCamera (-71.537, -16.399)%float 17%float 60%float 0%float standard).
Proof. repeat split. Qed.

Lemma mapStates_lookup_None (k : string) :
  k ∉ narrativeKeys -> mapStates !! k = None.
Proof.
  intros Hk. apply not_elem_of_dom. rewrite mapStates_dom.
  by rewrite elem_of_list_to_set.
Qed.

Lemma getProperty_own (k : string) (c : CameraState) :
  mapStates !! k = Some c -> getProperty k = own c.
Proof. intros Hk. unfold getProperty. by rewrite Hk. Qed.

(** Deciding membership of a literal in a list of literals. *)
Ltac not_listed :=
  let H := fresh in
  intros H; repeat (apply elem_of_cons in H as [H|H]; [discriminate H|]);
  by apply elem_of_nil in H.

Ltac listed H :=
  repeat (apply elem_of_cons in H as [->|H]); [..|by apply elem_of_nil in H].

Lemma inherited_not_narrative (k : string) :
  k ∈ Object_prototype ->
  (k ∉ narrativeKeys)
  /\ String.eqb k "data" = false /\ String.eqb k "conclusion" = false.
Proof. intros Hp. listed Hp; (split; [not_listed|done]). Qed.

(** A key that is neither in the table nor a member of [Object.prototype] is
    reported and ignored: no call reaches the map library and the driver is
    unchanged. *)
Lemma updateMapState_not_found (d : Driver) (styleName : option string) (k : string) :
  k ∉ narrativeKeys -> k ∉ Object_prototype ->
  fst (updateMapState d styleName k) = d
  /\ pushes (snd (updateMapState d styleName k)) = [].
Proof.
  intros Hk Hp. unfold updateMapState.
  destruct (negb (mapCreated d) || negb (isLoaded d)); [done|].
  unfold getProperty. rewrite (mapStates_lookup_None k Hk).
  by rewrite bool_decide_eq_false_2.
Qed.

(** A key inherited from [Object.prototype] passes the [!mapState] test: the
    driver pushes a camera whose parameters are all [undefined] and records
    the key as its current state. *)
Lemma updateMapState_inherited (d : Driver) (styleName : option string) (k : string) :
  k ∈ Object_prototype -> mapCreated d = true -> isLoaded d = true ->
  fst (updateMapState d styleName k) = set_currentState d (Some k)
  /\ pushes (snd (updateMapState d styleName k))
     = [ mkEase None None None None (if reducedMotion d then 0 else 2000) ].
Proof.
  intros Hp Hm Hl. unfold updateMapState. rewrite Hm, Hl. cbn [negb orb].
  destruct (inherited_not_narrative k Hp) as (Hk & -> & ->).
  assert (getProperty k = inherited k) as ->.
  { unfold getProperty.
    by rewrite (mapStates_lookup_None k Hk), bool_decide_eq_true_2. }
  cbn [truthy negb fst snd get_style get_center get_zoom get_pitch get_bearing].
  split; [done|].
  rewrite andb_false_r. cbn [orb].
  unfold pushes. rewrite !omap_app.
  by destruct (bool_decide (styleName ≠ None)).
Qed.

(** C4. The six narrative keys are the only own keys of the table, but they
    are not the only keys [updateMapState] recognizes: "constructor" is not a
    narrative key and not in the table, yet with the map loaded the call
    [updateMapState("constructor")] replaces the style by [undefined], pushes
    a camera whose centre, zoom, pitch and bearing are [undefined], and makes
    "constructor" the current state. *)
Theorem updateMapState_constructor :
  let d := loaded (Some "intro") [] 0 in
  dom mapStates = list_to_set narrativeKeys
  /\ ("constructor" ∉ narrativeKeys)
  /\ mapStates !! "constructor" = None
  /\ updateMapState d (Some "Mapbox Satellite Streets") "constructor"
     = (loaded (Some "constructor") [] 0,
        [ setStyle None;
          easeTo (mkEase None None None None 2000);
          setTimeout_applyLightingForState "constructor" 100 ]).
Proof.
  cbv zeta. split; [reflexivity|]. split; [not_listed|].
  split; reflexivity.
Qed.

(** ** Panels coming into view *)

Lemma pushes_app (a b : list Effect) : pushes (a ++ b) = pushes a ++ pushes b.
Proof. unfold pushes. apply omap_app. Qed.

(** The camera pushes of [updateMapState] on a key of the table. *)
Lemma updateMapState_own (d : Driver) (styleName : option string) (k : string)
    (c : CameraState) :
  mapCreated d = true -> isLoaded d = true -> mapStates !! k = Some c ->
  fst (updateMapState d styleName k) = set_currentState d (Some k)
  /\ pushes (snd (updateMapState d styleName k))
     = if bool_decide (currentState d = Some "data") && String.eqb k "conclusion"
       then [] else [ parameters c (reducedMotion d) ].
Proof.
  intros Hm Hl Hk. unfold updateMapState. rewrite Hm, Hl. cbn [negb orb].
  rewrite (getProperty_own k c Hk).
  cbn [truthy negb fst snd get_style get_center get_zoom get_pitch get_bearing].
  split; [done|]. rewrite !pushes_app.
  destruct (bool_decide (styleName ≠ Some (style c)));
    destruct (bool_decide (currentState d = Some "data") && String.eqb k "conclusion");
    destruct (String.eqb k "data" || String.eqb k "conclusion"); reflexivity.
Qed.

(** C5, as stated, fails twice.  With the map loaded and the "data" panel
    current, the "conclusion" panel coming into view pushes no camera although
    its key is in the table; and on a freshly loaded page the first panel
    coming into view pushes none either, because its index is already the
    current panel index. *)
Lemma panel_in_view_without_push :
  mapStates !! "conclusion"
    = Some (mkCamera (-71.537, -16.399)%float 17%float 60%float 0%float standard)
  /\ indexOf sixPanels (mkPanel 5 (Some "conclusion")) = Some 5
  /\ updateActivePanel (loaded (Some "data") sixPanels 4) (Some "Mapbox Standard")
       (mkPanel 5 (Some "conclusion"))
     = (loaded (Some "conclusion") sixPanels 5,
        [ console_log_panel (Some "conclusion") 5;
          setStyle (Some standard);
          console_log "Maintaining same view from data to conclusion - no animation";
          setTimeout_applyLightingForState "conclusion" 100;
          configure3DBuildingsForStandardStyle;
          updateProgressBar ])
  /\ pushes (snd (updateActivePanel (loaded (Some "data") sixPanels 4)
                    (Some "Mapbox Standard") (mkPanel 5 (Some "conclusion")))) = []
  /\ updateActivePanel (loaded None sixPanels 0) (Some "Mapbox Satellite Streets")
       (mkPanel 0 (Some "intro"))
     = (loaded None sixPanels 0, []).
Proof. repeat split. Qed.

(** C5, amended.  When the observer reports a panel whose index differs from
    the current panel index, with the map loaded and the panel's key in the
    table, the driver makes that panel and that key current and pushes exactly
    the key's centre, zoom, pitch and bearing to the map library, except on
    the step from "data" to "conclusion", where it pushes nothing. *)
Theorem updateActivePanel_pushes (d : Driver) (styleName : option string)
    (activePanel : Panel) (panelIndex : nat) (k : string) (c : CameraState) :
  mapCreated d = true ->
  isLoaded d = true ->
  indexOf (contentPanels d) activePanel = Some panelIndex ->
  panelIndex <> currentPanelIndex d ->
  dataset_mapState activePanel = Some k ->
  mapStates !! k = Some c ->
  let '(d', fx) := updateActivePanel d styleName activePanel in
  currentPanelIndex d' = panelIndex
  /\ currentState d' = Some k
  /\ pushes fx
     = if bool_decide (currentState d = Some "data") && String.eqb k "conclusion"
       then [] else [ parameters c (reducedMotion d) ].
Proof.
  intros Hm Hl Hidx Hne Hkey Hk. unfold updateActivePanel.
  rewrite Hidx. apply Nat.eqb_neq in Hne. rewrite Hne, Hkey.
  assert (present (Some k) = Some k) as ->.
  { cbn. destruct (String.eqb k "") eqn:He; [|done].
    apply String.eqb_eq in He as ->. discriminate Hk. }
  pose proof (updateMapState_own (set_currentPanelIndex d panelIndex) styleName k c
                Hm Hl Hk) as [Hd Hfx].
  destruct (updateMapState (set_currentPanelIndex d panelIndex) styleName k)
    as [d2 fx]. cbn [fst snd] in Hd, Hfx. subst d2.
  split; [done|]. split; [done|].
  rewrite !pushes_app. cbn [pushes omap]. rewrite app_nil_r. exact Hfx.
Qed.

Lemma updateActivePanel_pushes_witness :
  let d := loaded (Some "historical") sixPanels 1 in
  let p := mkPanel 3 (Some "cultural") in
  indexOf (contentPanels d) p = Some 3
  /\ mapStates !! "cultural"
     = Some (mkCamera (-71.5375, -16.4090)%float 9%float 60%float (-30)%float
               satellite_streets)
  /\ pushes (snd (updateActivePanel d (Some "Mapbox Satellite Streets") p))
     = [ mkEase (Some (-71.5375, -16.4090)%float) (Some 9%float) (Some 60%float)
               (Some (-30)%float) 2000 ].
Proof.
  split; [reflexivity|]. split; [reflexivity|].
  exact (proj2 (proj2
    (updateActivePanel_pushes (loaded (Some "historical") sixPanels 1)
       (Some "Mapbox Satellite Streets") (mkPanel 3 (Some "cultural")) 3 "cultural"
       (mkCamera (-71.5375, -16.4090)%float 9%float 60%float (-30)%float
          satellite_streets)
       eq_refl eq_refl eq_refl ltac:(discriminate)
       eq_refl eq_refl))).
Defined.

End ArequipaScrollMapFacts.

(** * Properties of the parallax layers *)

Module TerritoryLayersFacts.
Import TerritoryLayers.

Local Open Scope float_scope.

(** ** Comparisons of binary64 values *)

Lemma SFcompare_None (a b : spec_float) :
  SFcompare a b = None -> a = S754_nan \/ b = S754_nan.
Proof. destruct a, b; cbn; intros H; try discriminate H; auto. Qed.

Lemma SFcompare_swap (a b : spec_float) :
  SFcompare b a = option_map CompOpp (SFcompare a b).
Proof.
  destruct a as [sa|sa| |sa ma ea], b as [sb|sb| |sb mb eb]; cbn;
    try reflexivity; try (by destruct sa); try (by destruct sb);
    try (by destruct sa, sb).
  destruct sa, sb; cbn; try reflexivity; f_equal;
    rewrite (Z.compare_antisym ea eb); destruct (ea ?= eb)%Z; cbn;
    try reflexivity.
  - f_equal. symmetry. apply (Pos.compare_cont_antisym ma mb Eq).
  - symmetry. apply (Pos.compare_cont_antisym ma mb Eq).
Qed.

Lemma not_nan (x : float) : is_nan x = false -> Prim2SF x <> S754_nan.
Proof.
  unfold is_nan. rewrite FloatAxioms.eqb_spec. intros H E. rewrite E in H.
  discriminate H.
Qed.

Lemma ltb_leb (x y : float) : (x <? y) = true -> (x <=? y) = true.
Proof.
  rewrite FloatAxioms.ltb_spec, FloatAxioms.leb_spec. unfold SFltb, SFleb.
  by destruct (SFcompare _ _) as [[]|].
Qed.

Lemma nltb_leb (x y : float) :
  is_nan x = false -> is_nan y = false -> (x <? y) = false -> (y <=? x) = true.
Proof.
  intros Hx Hy. apply not_nan in Hx, Hy.
  rewrite FloatAxioms.ltb_spec, FloatAxioms.leb_spec. unfold SFltb, SFleb.
  rewrite (SFcompare_swap (Prim2SF x) (Prim2SF y)).
  destruct (SFcompare (Prim2SF x) (Prim2SF y)) as [[]|] eqn:E; cbn; try done.
  by destruct (SFcompare_None _ _ E).
Qed.

(** ** The clamp *)

Lemma Math_min_1 (x : float) :
  is_nan x = false ->
  is_nan (Math_min 1 x) = false /\ (Math_min 1 x <=? 1) = true.
Proof.
  intros Hx. unfold Math_min. rewrite Hx. change (is_nan 1) with false. cbn [orb].
  destruct (1 <? x) eqn:H1; [by split|].
  destruct (x <? 1) eqn:H2; [split; [done|by apply ltb_leb]|].
  change (is_zero 1 && get_sign 1)%bool with false.
  split; [done|]. by apply nltb_leb.
Qed.

Lemma Math_max_0 (y : float) :
  is_nan y = false -> (y <=? 1) = true ->
  (0 <=? Math_max 0 y) = true /\ (Math_max 0 y <=? 1) = true.
Proof.
  intros Hy Hle. unfold Math_max. rewrite Hy. change (is_nan 0) with false.
  cbn [orb].
  destruct (0 <? y) eqn:H1; [split; [by apply ltb_leb|done]|].
  destruct (y <? 0) eqn:H2; [by split|].
  change (is_zero 0 && get_sign 0)%bool with false. by split.
Qed.

(** The scalar is a number of the interval exactly when the ratio is a number;
    [NaN] passes through both [Math.min] and [Math.max]. *)
Lemma scrollProgress_range (rect : DOMRect) (innerHeight : float) :
  is_nan (ratio rect innerHeight) = false ->
  (0 <=? scrollProgress rect innerHeight) = true
  /\ (scrollProgress rect innerHeight <=? 1) = true.
Proof.
  intros Hr. unfold scrollProgress.
  destruct (Math_min_1 _ Hr) as [Hn Hle]. by apply Math_max_0.
Qed.

Lemma scrollProgress_nan (rect : DOMRect) (innerHeight : float) :
  is_nan (ratio rect innerHeight) = true ->
  scrollProgress rect innerHeight = nan.
Proof.
  intros Hr. unfold scrollProgress, Math_min. rewrite Hr, orb_true_r.
  reflexivity.
Qed.

(** ** One frame *)

(** With [containerRef.current] null the frame computes nothing, writes
    nothing and does not ask for another frame. *)
Lemma frame_unmounted (innerHeight : float) (layers : nat) :
  frame None innerHeight layers = None.
Proof. reflexivity. Qed.

(** C8 (counterexample).  Not every frame computes a scalar: the frame that
    finds the container unmounted returns at once.  The opacity does not come
    from the scalar: it is the literal "1" at either end of the scroll, where
    the scalars are 0 and 1.  And when the container is exactly as tall as the
    window with its top edge at the top of the viewport, the ratio is [0/0],
    the clamp lets [NaN] through, and the scalar of that frame is not in
    [0, 1]. *)
Lemma scrollProgress_not_clamped :
  frame None 800 2 = None
  /\ frame (Some (mkRect 0 1800)) 800 2
     = Some (mkFrame 0 0 [ mkLayer 0 "1" false; mkLayer 120 "1" true ] true)
  /\ frame (Some (mkRect (-1000) 1800)) 800 2
     = Some (mkFrame 1 1 [ mkLayer 0 "1" true; mkLayer 300 "1" true ] true)
  /\ frame (Some (mkRect 0 800)) 800 2
     = Some (mkFrame nan nan [ mkLayer nan "1" false; mkLayer nan "1" true ] true)
  /\ (0 <=? nan) = false
  /\ (nan <=? 1) = false.
Proof. repeat split. Qed.

(** C8, amended.  A frame that finds the container unmounted computes
    nothing.  Every frame that finds it mounted, whatever the rectangle and
    the window, computes one scroll-progress scalar, the clamp
    [max 0 (min 1 (-top / (height - innerHeight)))], and asks for the next
    frame; layer [i] gets the depth
    [120 * i + 180 * i * ease (min (progress / 0.80) 1)], computed from that
    one scalar, the opacity "1", and the class [open] when [i > 0] or the
    eased value exceeds [0.10].  Whenever the ratio is a number, the scalar
    lies in [0, 1]. *)
Theorem frame_layers (rect : DOMRect) (innerHeight : float) (layers : nat) :
  frame None innerHeight layers = None
  /\ exists fr,
       frame (Some rect) innerHeight layers = Some fr
       /\ progress fr = Math_max 0 (Math_min 1 (- top rect / (height rect - innerHeight)))
       /\ eased fr = ease (Math_min (progress fr / 0.80) 1)
       /\ length (styles fr) = layers
       /\ (forall i, (i < layers)%nat ->
             styles fr !! i
             = Some (mkLayer
                       (index i * 120
                        + index i * 180 * ease (Math_min (progress fr / 0.80) 1))
                       "1"
                       (Nat.ltb 0 i || (0.10 <? eased fr))))
       /\ requestedNext fr = true
       /\ (is_nan (- top rect / (height rect - innerHeight)) = false ->
           (0 <=? progress fr) = true /\ (progress fr <=? 1) = true).
Proof.
  split; [reflexivity|].
  eexists. split; [reflexivity|]. cbn [progress eased styles requestedNext].
  split; [reflexivity|].
  split; [reflexivity|]. split; [by rewrite length_map, length_seq|].
  split; [|split; [reflexivity|]].
  - intros i Hi. by rewrite list_lookup_fmap, lookup_seq_lt.
  - intros Hr. exact (scrollProgress_range rect innerHeight Hr).
Qed.

Lemma frame_layers_witness :
  is_nan (ratio (mkRect (-400) 1800) 800) = false
  /\ exists fr,
       frame (Some (mkRect (-400) 1800)) 800 5 = Some fr
       /\ (0 <=? progress fr) = true
       /\ (progress fr <=? 1) = true
       /\ translateZ <$> styles fr = [ 0; 210; 420; 630; 840 ].
Proof.
  split; [reflexivity|].
  destruct (proj2 (frame_layers (mkRect (-400) 1800) 800 5))
    as (fr & Hfr & _ & _ & _ & _ & _ & Hrange).
  destruct (Hrange eq_refl) as [H0 H1].
  exists fr. split; [exact Hfr|]. split; [exact H0|]. split; [exact H1|].
  injection Hfr as <-. reflexivity.
Defined.

End TerritoryLayersFacts.

(** * Properties of the other methods of the scroll-driven camera *)

Module ArequipaScrollMapMethodsFacts.
Import ArequipaScrollMap ArequipaScrollMapMethods.

(** A number is not in a list of other numbers. *)
Ltac not_elem_of_list :=
  let H := fresh in
  intros H; repeat (apply elem_of_cons in H as [H|H]; [discriminate H|]);
  by apply elem_of_nil in H.

(** ** [indexOf] *)

Lemma indexOf_lt (panels : list Panel) (p : Panel) (i : nat) :
  indexOf panels p = Some i -> i < length panels.
Proof.
  revert i. induction panels as [|q rest IH]; intros i; cbn; [done|].
  destruct (Nat.eqb (node q) (node p)).
  - intros [= <-]. lia.
  - destruct (indexOf rest p) as [j|]; cbn; [|done].
    intros [= <-]. specialize (IH j eq_refl). lia.
Qed.

Lemma indexOf_lookup (panels : list Panel) (p : Panel) (i : nat) :
  indexOf panels p = Some i ->
  exists q, panels !! i = Some q /\ node q = node p.
Proof.
  revert i. induction panels as [|q rest IH]; intros i; cbn; [done|].
  destruct (Nat.eqb (node q) (node p)) eqn:E.
  - intros [= <-]. exists q. split; [done|]. by apply Nat.eqb_eq.
  - destruct (indexOf rest p) as [j|]; cbn; [|done].
    intros [= <-]. apply (IH j eq_refl).
Qed.

Lemma lookup_indexOf (panels : list Panel) (p : Panel) (i : nat) :
  NoDup (node <$> panels) -> panels !! i = Some p -> indexOf panels p = Some i.
Proof.
  revert i. induction panels as [|q rest IH]; intros i Hnd Hi; [done|].
  cbn in Hnd. apply NoDup_cons in Hnd as [Hq Hnd]. cbn.
  destruct i as [|i]; cbn in Hi.
  - injection Hi as ->. by rewrite Nat.eqb_refl.
  - destruct (Nat.eqb (node q) (node p)) eqn:E.
    + apply Nat.eqb_eq in E. exfalso. apply Hq. rewrite E.
      apply list_elem_of_fmap. exists p. split; [done|].
      by eapply list_elem_of_lookup_2.
    + by rewrite (IH i Hnd Hi).
Qed.

(** X1. On panels that are distinct DOM nodes, [indexOf] and indexing are
    inverse to each other, and [indexOf] answers [-1] exactly for a node that
    is not among the panels. *)
Theorem indexOf_round_trip (panels : list Panel) (p : Panel) (i : nat) :
  NoDup (node <$> panels) ->
  (panels !! i = Some p -> indexOf panels p = Some i)
  /\ (indexOf panels p = Some i ->
      i < length panels /\ exists q, panels !! i = Some q /\ node q = node p)
  /\ (indexOf panels p = None <-> node p ∉ (node <$> panels)).
Proof.
  intros Hnd. split; [by apply lookup_indexOf|].
  split; [intros Hi; split; [by eapply indexOf_lt|by apply indexOf_lookup]|].
  clear Hnd i. induction panels as [|q rest IH]; cbn.
  - split; [intros _; apply not_elem_of_nil|done].
  - destruct (Nat.eqb (node q) (node p)) eqn:E.
    + apply Nat.eqb_eq in E. split; [done|]. intros Hn. exfalso. apply Hn.
      rewrite E. apply list_elem_of_here.
    + apply Nat.eqb_neq in E. rewrite not_elem_of_cons.
      destruct (indexOf rest p) as [j|]; cbn.
      * split; [done|]. intros [_ Hn]. by apply IH in Hn.
      * split; [|done]. intros _. split; [done|]. by apply IH.
Qed.

Lemma indexOf_round_trip_witness :
  NoDup (node <$> sixPanels)
  /\ sixPanels !! 3 = Some (mkPanel 3 (Some "cultural"))
  /\ indexOf sixPanels (mkPanel 3 (Some "cultural")) = Some 3.
Proof.
  assert (Hnd : NoDup (node <$> sixPanels)).
  { cbn. repeat (apply NoDup_cons; split; [not_elem_of_list|]). apply NoDup_nil_2. }
  split; [exact Hnd|]. split; [reflexivity|].
  exact (proj1 (indexOf_round_trip sixPanels (mkPanel 3 (Some "cultural")) 3 Hnd)
           eq_refl).
Defined.

(** ** Panel reports *)

(** [updateMapState] writes [currentState] and nothing else of the driver. *)
Lemma updateMapState_frame (d : Driver) (styleName : option string) (k : string) :
  fst (updateMapState d styleName k) = d
  \/ fst (updateMapState d styleName k) = set_currentState d (Some k).
Proof.
  unfold updateMapState.
  destruct (negb (mapCreated d) || negb (isLoaded d)); [by left|].
  destruct (negb (truthy (getProperty k))); [by left|by right].
Qed.

Lemma updateMapState_not_ready (d : Driver) (styleName : option string) (k : string) :
  mapCreated d = false \/ isLoaded d = false ->
  updateMapState d styleName k = (d, []).
Proof.
  intros [H|H]; unfold updateMapState; rewrite H; [done|].
  by rewrite orb_true_r.
Qed.

(** What a report of a panel at a new index leaves behind. *)
Lemma updateActivePanel_new (d : Driver) (styleName : option string) (p : Panel)
    (i : nat) :
  indexOf (contentPanels d) p = Some i -> i <> currentPanelIndex d ->
  contentPanels (fst (updateActivePanel d styleName p)) = contentPanels d
  /\ currentPanelIndex (fst (updateActivePanel d styleName p)) = i
  /\ mapCreated (fst (updateActivePanel d styleName p)) = mapCreated d
  /\ isLoaded (fst (updateActivePanel d styleName p)) = isLoaded d
  /\ updateProgressBar ∈ snd (updateActivePanel d styleName p).
Proof.
  intros Hi Hne. unfold updateActivePanel. rewrite Hi.
  apply Nat.eqb_neq in Hne. rewrite Hne.
  destruct (present (dataset_mapState p)) as [k|].
  - pose proof (updateMapState_frame (set_currentPanelIndex d i) styleName k) as Hfr.
    destruct (updateMapState (set_currentPanelIndex d i) styleName k) as [d2 fx].
    cbn [fst snd] in *.
    assert (updateProgressBar ∈ console_log_panel (dataset_mapState p) i
                                  :: fx ++ [updateProgressBar]) as Hin.
    { apply elem_of_cons. right. apply elem_of_app. right. apply list_elem_of_here. }
    by destruct Hfr as [-> | ->].
  - cbn. repeat split. apply elem_of_cons. right. apply list_elem_of_here.
Qed.

(** A report that changes nothing: the node is not a panel, or it is the
    current panel already. *)
Lemma updateActivePanel_same (d : Driver) (styleName : option string) (p : Panel) :
  indexOf (contentPanels d) p = None
  \/ indexOf (contentPanels d) p = Some (currentPanelIndex d) ->
  updateActivePanel d styleName p = (d, []).
Proof.
  intros [H|H]; unfold updateActivePanel; rewrite H; [done|].
  by rewrite Nat.eqb_refl.
Qed.

(** X2. Reporting the same panel twice in a row is the same as reporting it
    once: after any report of a panel, a second report of that panel makes no
    call and leaves the driver as it is, whatever the map's style is then. *)
Theorem updateActivePanel_idempotent (d : Driver) (styleName styleName' : option string)
    (p : Panel) :
  updateActivePanel (fst (updateActivePanel d styleName p)) styleName' p
  = (fst (updateActivePanel d styleName p), []).
Proof.
  destruct (indexOf (contentPanels d) p) as [i|] eqn:Hi.
  - destruct (decide (i = currentPanelIndex d)) as [->|Hne].
    + rewrite (updateActivePanel_same d styleName p) by (by right).
      apply updateActivePanel_same. by right.
    + destruct (updateActivePanel_new d styleName p i Hi Hne) as (Hp & Hc & _).
      apply updateActivePanel_same. right. by rewrite Hp, Hc.
  - rewrite (updateActivePanel_same d styleName p) by (by left).
    apply updateActivePanel_same. by left.
Qed.

(** X3. Under any sequence of observer callbacks the panels stay the same and
    the current panel index stays a valid index; the progress bar is updated
    only on pages with at least two panels, so that the divisor
    [contentPanels.length - 1] is not zero there.  Called directly on a page
    with a single panel, [updateProgressBar] would compute [0 / 0]. *)
Theorem panelObserver_index_valid (d : Driver) (entries : list Entry) :
  currentPanelIndex d < length (contentPanels d) ->
  contentPanels (fst (panelObserver d entries)) = contentPanels d
  /\ currentPanelIndex (fst (panelObserver d entries)) < length (contentPanels d)
  /\ (updateProgressBar ∈ snd (panelObserver d entries) ->
      2 <= length (contentPanels d))
  /\ (forall d1, length (contentPanels d1) = 1 -> currentPanelIndex d1 = 0 ->
        updateProgressBar_width true d1 = Some nan).
Proof.
  intros Hvalid.
  cut (contentPanels (fst (panelObserver d entries)) = contentPanels d
       /\ currentPanelIndex (fst (panelObserver d entries)) < length (contentPanels d)
       /\ (updateProgressBar ∈ snd (panelObserver d entries) ->
           2 <= length (contentPanels d))).
  { intros (H1 & H2 & H3). repeat split; [done..|].
    intros d1 Hlen H0. unfold updateProgressBar_width. rewrite Hlen, H0.
    reflexivity. }
  revert d Hvalid. induction entries as [|e rest IH]; intros d Hvalid.
  { cbn. repeat split; [done|]. intros H. by apply elem_of_nil in H. }
  cbn [panelObserver].
  destruct (isIntersecting e).
    + destruct (indexOf (contentPanels d) (target e)) as [i|] eqn:Hi.
      * destruct (decide (i = currentPanelIndex d)) as [->|Hne].
        -- rewrite (updateActivePanel_same d (styleNameThen e) (target e))
             by (by right).
           specialize (IH d Hvalid).
           destruct (panelObserver d rest) as [d2 fx2]. exact IH.
        -- destruct (updateActivePanel_new d (styleNameThen e) (target e) i Hi Hne)
             as (Hp & Hc & _).
           pose proof (indexOf_lt _ _ _ Hi) as Hlt.
           destruct (updateActivePanel d (styleNameThen e) (target e)) as [d1 fx1].
           cbn [fst snd] in *.
           assert (currentPanelIndex d1 < length (contentPanels d1)) as Hv1
             by (by rewrite Hp, Hc).
           specialize (IH d1 Hv1).
           destruct (panelObserver d1 rest) as [d2 fx2]. cbn [fst snd] in *.
           rewrite Hp in IH. destruct IH as (IH1 & IH2 & _).
           repeat split; [done..|]. intros _. lia.
      * rewrite (updateActivePanel_same d (styleNameThen e) (target e))
          by (by left).
        specialize (IH d Hvalid).
        destruct (panelObserver d rest) as [d2 fx2]. exact IH.
    + specialize (IH d Hvalid).
      destruct (panelObserver d rest) as [d2 fx2]. exact IH.
Qed.

Lemma panelObserver_index_valid_witness :
  let d := loaded (Some "intro") sixPanels 0 in
  let entries :=
    [ mkEntry (mkPanel 1 (Some "historical")) true (Some "Mapbox Satellite Streets");
      mkEntry (mkPanel 0 (Some "intro")) false (Some "Mapbox Satellite Streets");
      mkEntry (mkPanel 4 (Some "data")) true (Some "Mapbox Satellite Streets") ] in
  currentPanelIndex d < length (contentPanels d)
  /\ currentPanelIndex (fst (panelObserver d entries)) = 4
  /\ currentPanelIndex (fst (panelObserver d entries)) < length (contentPanels d).
Proof.
  cbv zeta. split; [cbn; lia|]. split; [reflexivity|].
  refine (proj1 (proj2 (panelObserver_index_valid _ _ _))). cbn; lia.
Defined.

(** X4. A panel reported before the map has loaded is lost for the camera:
    the report moves the current panel index, pushes nothing and leaves the
    current state as it was; and once the map has loaded, reporting the same
    panel again does nothing, because its index is the current one by then. *)
Theorem report_before_load_is_lost (d : Driver) (styleName : option string)
    (p : Panel) (i : nat) :
  isLoaded d = false ->
  indexOf (contentPanels d) p = Some i ->
  i <> currentPanelIndex d ->
  let d1 := fst (updateActivePanel d styleName p) in
  let d2 := mkDriver true true (currentState d1) (reducedMotion d1) (contentPanels d1)
              (currentPanelIndex d1) in
  pushes (snd (updateActivePanel d styleName p)) = []
  /\ currentState d1 = currentState d
  /\ currentPanelIndex d1 = i
  /\ (forall styleName', updateActivePanel d2 styleName' p = (d2, [])).
Proof.
  intros Hl Hi Hne d1 d2.
  assert (updateActivePanel d styleName p
          = (set_currentPanelIndex d i,
             [console_log_panel (dataset_mapState p) i; updateProgressBar])) as Hu.
  { unfold updateActivePanel. rewrite Hi.
    apply Nat.eqb_neq in Hne. rewrite Hne.
    destruct (present (dataset_mapState p)) as [k|]; [|done].
    rewrite updateMapState_not_ready; [done|by right]. }
  subst d1 d2. rewrite Hu. cbn [fst snd].
  repeat split. intros styleName'. apply updateActivePanel_same. right.
  cbn. exact Hi.
Qed.

Lemma report_before_load_is_lost_witness :
  let d := mkDriver true false None false sixPanels 0 in
  let p := mkPanel 2 (Some "architectural") in
  isLoaded d = false
  /\ indexOf (contentPanels d) p = Some 2
  /\ pushes (snd (updateActivePanel d (Some "Mapbox Satellite Streets") p)) = []
  /\ updateActivePanel (loaded None sixPanels 2) (Some "Mapbox Satellite Streets") p
     = (loaded None sixPanels 2, []).
Proof.
  cbv zeta. split; [reflexivity|]. split; [reflexivity|].
  pose proof (report_before_load_is_lost (mkDriver true false None false sixPanels 0)
                (Some "Mapbox Satellite Streets") (mkPanel 2 (Some "architectural")) 2
                eq_refl eq_refl ltac:(discriminate)) as (H1 & _ & _ & H2).
  split; [exact H1|]. exact (H2 (Some "Mapbox Satellite Streets")).
Defined.

(** ** The access token *)

Lemma present_Some (v : option string) (t : string) :
  present v = Some t -> v = Some t /\ t <> "".
Proof.
  destruct v as [u|]; cbn; [|done].
  destruct (String.eqb u "") eqn:E; [done|].
  intros [= <-]. split; [done|]. by apply String.eqb_neq.
Qed.

(** X5. [getMapboxToken] never returns a falsy value, so [initializeMap]
    never throws "Mapbox token not found"; the environment variable wins over
    the data attribute, and the placeholder "MAPBOX_TOKEN_HERE" of the data
    attribute is never returned for it (the development token stands in). *)
Theorem getMapboxToken_total (envToken dataToken : option string) :
  getMapboxToken envToken dataToken <> ""
  /\ initializeMap_token envToken dataToken
     = inl (getMapboxToken envToken dataToken)
  /\ (forall t, envToken = Some t -> t <> "" ->
        getMapboxToken envToken dataToken = t)
  /\ (present envToken = None ->
      getMapboxToken envToken dataToken <> "MAPBOX_TOKEN_HERE"
      /\ (getMapboxToken envToken dataToken = developmentToken
          \/ dataToken = Some (getMapboxToken envToken dataToken))).
Proof.
  assert (Hne : getMapboxToken envToken dataToken <> "").
  { unfold getMapboxToken.
    destruct (present envToken) as [t|] eqn:He;
      [by apply present_Some in He as [_ ?]|].
    destruct (present dataToken) as [t|] eqn:Hd; [|done].
    apply present_Some in Hd as [_ ?]. by destruct (negb _). }
  split; [exact Hne|]. split.
  { unfold initializeMap_token. apply String.eqb_neq in Hne. by rewrite Hne. }
  split.
  { intros t -> Ht. unfold getMapboxToken. cbn.
    apply String.eqb_neq in Ht. by rewrite Ht. }
  intros He. unfold getMapboxToken. rewrite He.
  destruct (present dataToken) as [t|] eqn:Hd; [|split; [done|by left]].
  apply present_Some in Hd as [-> _].
  destruct (String.eqb t "MAPBOX_TOKEN_HERE") eqn:E; cbn.
  - split; [done|by left].
  - split; [by apply String.eqb_neq|by right].
Qed.

(** ** Pinning the map *)

Lemma pin_unpin_absorb (c : option MapContainer) :
  pinMap (pinMap c) = pinMap c /\ pinMap (unpinMap c) = pinMap c
  /\ unpinMap (unpinMap c) = unpinMap c /\ unpinMap (pinMap c) = unpinMap c.
Proof.
  destruct c as [c|]; [|done]. cbn.
  assert (E1 : {[ "pinned-map" ]} ∪ ({[ "pinned-map" ]} ∪ classList c)
               = {[ "pinned-map" ]} ∪ classList c).
  { apply set_eq. intros x. rewrite !elem_of_union. tauto. }
  assert (E2 : {[ "pinned-map" ]} ∪ classList c ∖ {[ "pinned-map" ]}
               = {[ "pinned-map" ]} ∪ classList c).
  { apply set_eq. intros x.
    rewrite !elem_of_union, elem_of_difference, elem_of_singleton.
    destruct (decide (x = "pinned-map")); tauto. }
  assert (E3 : classList c ∖ {[ "pinned-map" ]} ∖ {[ "pinned-map" ]}
               = classList c ∖ {[ "pinned-map" ]}).
  { apply set_eq. intros x. rewrite !elem_of_difference. tauto. }
  assert (E4 : ({[ "pinned-map" ]} ∪ classList c) ∖ {[ "pinned-map" ]}
               = classList c ∖ {[ "pinned-map" ]}).
  { apply set_eq. intros x.
    rewrite !elem_of_difference, elem_of_union, elem_of_singleton. tauto. }
  by rewrite E1, E2, E3, E4.
Qed.

(** X6. Whatever the container looked like and whatever the earlier entries
    of a callback did, after the callback of the section observer the map is
    pinned exactly when the last entry is intersecting: [pinMap] and
    [unpinMap] overwrite each other completely. *)
Theorem unpinObserver_last_entry (c : option MapContainer) (entries : list bool)
    (isIntersecting : bool) :
  unpinObserver c (entries ++ [isIntersecting])
  = if isIntersecting then pinMap c else unpinMap c.
Proof.
  unfold unpinObserver. rewrite foldl_app. cbn.
  set (step := fun c b => if negb b then unpinMap c else pinMap c).
  assert (H : pinMap (foldl step c entries) = pinMap c
              /\ unpinMap (foldl step c entries) = unpinMap c).
  { induction entries as [|b rest IH] using rev_ind; [done|].
    rewrite foldl_app. cbn. destruct IH as [IH1 IH2].
    destruct (pin_unpin_absorb (foldl step c rest)) as (P1 & P2 & P3 & P4).
    unfold step at 1 3. destruct b; cbn.
    - by rewrite P1, P4, IH1, IH2.
    - by rewrite P2, P3, IH1, IH2. }
  destruct H as [H1 H2]. by destruct isIntersecting.
Qed.

(** ** Debouncing *)

Section Debounce.
Context {A : Type}.

(** At most one timer is pending, it is the one [timeout] names and it holds
    the arguments of the latest call; [func] has run on a subsequence of the
    calls before that one. *)
Definition debounceInv (past : list A) (s : Debounced A) : Prop :=
  match pendingTimers s with
  | [] => invoked s `sublist_of` past
  | [(h, a)] =>
      timeout s = Some h
      /\ exists past', past = past' ++ [a] /\ invoked s `sublist_of` past'
  | _ => False
  end.

Lemma debounceInv_called (past : list A) (s : Debounced A) (a : A) :
  debounceInv past s -> debounceInv (past ++ [a]) (executedFunction a s).
Proof.
  unfold debounceInv, executedFunction.
  destruct s as [t pend n inv]. cbn.
  destruct pend as [|[h b] [|? ?]]; [| |done].
  - intros Hinv. destruct t; cbn; (split; [done|]); by exists past.
  - intros [-> (past' & -> & Hinv)]. cbn. rewrite Nat.eqb_refl. cbn.
    split; [done|]. exists (past' ++ [b]). split; [done|].
    by apply sublist_inserts_r.
Qed.

Lemma debounceInv_fired (past : list A) (s s' : Debounced A) (h : nat) :
  debounceInv past s -> timerFires h s = Some s' -> debounceInv past s'.
Proof.
  unfold debounceInv, timerFires.
  destruct s as [t pend n inv]. cbn.
  destruct pend as [|[h0 b] [|? ?]]; [done| |done].
  intros [-> (past' & -> & Hinv)]. cbn.
  destruct (Nat.eqb h0 h) eqn:E; [|done].
  intros [= <-]. cbn.
  apply sublist_app; [done|]. apply sublist_skip, sublist_nil.
Qed.

Lemma debounceInv_run (evs : list (DebounceEvent A)) (past : list A)
    (s s' : Debounced A) :
  debounceInv past s -> debounceRun s evs = Some s' ->
  debounceInv (past ++ calledWith evs) s'.
Proof.
  revert past s. induction evs as [|[a|h] rest IH]; intros past s Hinv Hrun;
    cbn in Hrun |- *.
  - injection Hrun as <-. by rewrite app_nil_r.
  - change (calledWith (Called a :: rest)) with (a :: calledWith rest).
    rewrite (cons_middle a), app_assoc.
    apply (IH _ _ (debounceInv_called past s a Hinv) Hrun).
  - destruct (timerFires h s) as [s1|] eqn:Hf; [|done].
    change (calledWith (Fired h :: rest)) with (calledWith rest).
    apply (IH _ _ (debounceInv_fired past s s1 h Hinv Hf) Hrun).
Qed.

(** X7. However calls of the debounced function and timer expiries
    interleave, at most one timer is pending, and it carries the arguments of
    the latest call; [func] has only ever been run with arguments of earlier
    calls, in their order and at most once per call. *)
Theorem debounce_at_most_one_pending (evs : list (DebounceEvent A)) (s : Debounced A) :
  debounceRun debounce evs = Some s ->
  length (pendingTimers s) <= 1
  /\ (forall h a, (h, a) ∈ pendingTimers s ->
        timeout s = Some h /\ last (calledWith evs) = Some a)
  /\ invoked s `sublist_of` calledWith evs.
Proof.
  intros Hrun.
  pose proof (debounceInv_run evs [] debounce s (sublist_nil) Hrun) as Hinv.
  cbn [app] in Hinv. unfold debounceInv in Hinv.
  destruct (pendingTimers s) as [|[h a] [|? ?]]; [| |done].
  - split; [cbn; lia|]. split; [|done].
    intros ? ? H. by apply elem_of_nil in H.
  - destruct Hinv as (Ht & past' & Hp & Hs). split; [cbn; lia|]. split.
    + intros h' a' H. apply list_elem_of_singleton in H as [= -> ->].
      split; [done|]. rewrite Hp. apply last_snoc.
    + rewrite Hp. by apply sublist_inserts_r.
Qed.

(** X8. A burst of calls followed by the expiry of the pending timer runs
    [func] exactly once, with the arguments of the last call of the burst. *)
Theorem debounce_burst (burst : list A) (a : A) :
  exists s h,
    debounceRun debounce (Called <$> (burst ++ [a])) = Some s
    /\ pendingTimers s = [(h, a)]
    /\ invoked s = []
    /\ invoked <$> timerFires h s = Some [a].
Proof.
  assert (Hgen : forall (calls : list A) (s0 : Debounced A),
            (pendingTimers s0 = []
             \/ exists h b, pendingTimers s0 = [(h, b)] /\ timeout s0 = Some h) ->
            forall b, exists s h,
              debounceRun s0 (Called <$> (calls ++ [b])) = Some s
              /\ pendingTimers s = [(h, b)] /\ timeout s = Some h
              /\ invoked s = invoked s0).
  { induction calls as [|c calls IH]; intros s0 H0 b.
    - exists (executedFunction b s0), (nextHandle s0). cbn.
      split; [done|]. destruct H0 as [->|(h & c & -> & ->)]; cbn.
      + by destruct (timeout s0).
      + by rewrite Nat.eqb_refl.
    - cbn. destruct (IH (executedFunction c s0)) with (b := b)
        as (s & h & Hrun & Hp & Ht & Hi).
      + right. exists (nextHandle s0), c. split; [|done]. cbn.
        destruct H0 as [->|(h & c' & -> & ->)]; cbn.
        * by destruct (timeout s0).
        * by rewrite Nat.eqb_refl.
      + exists s, h. by repeat split. }
  destruct (Hgen burst debounce (or_introl eq_refl) a) as (s & h & Hrun & Hp & Ht & Hi).
  exists s, h. repeat split; [done..|].
  unfold timerFires. rewrite Hp. cbn. rewrite Nat.eqb_refl. cbn.
  by rewrite Hi.
Qed.

End Debounce.

Lemma debounce_at_most_one_pending_witness :
  debounceRun debounce [ Called "a"; Called "b"; Fired 2; Called "c" ]
  = Some (mkDebounced (Some 3) [(3, "c")] 4 ["b"])
  /\ ["b"] `sublist_of` ["a"; "b"; "c"].
Proof.
  split; [reflexivity|].
  exact (proj2 (proj2
    (debounce_at_most_one_pending [ Called "a"; Called "b"; Fired 2; Called "c" ]
       (mkDebounced (Some 3) [(3, "c")] 4 ["b"]) eq_refl))).
Defined.

End ArequipaScrollMapMethodsFacts.

(** * Properties of the request-a-PDF form *)

Module DemoFormHandlerFacts.
Import DemoFormHandler.

Lemma truthy_Some (v : option string) (s : string) :
  truthy v = Some s <-> v = Some s /\ s <> "".
Proof.
  destruct v as [u|]; cbn; [|by split; [|intros []]].
  destruct (String.eqb u "") eqn:E.
  - apply String.eqb_eq in E as ->. split; [done|]. by intros [[= <-] ?].
  - apply String.eqb_neq in E. split; [by intros [= <-]|by intros [[= <-] _]].
Qed.

(** X9. A request is sent only for a form whose e-mail and captcha fields are
    both filled in, and then it is the one POST to the relay with the body
    built from the e-mail address; with a field missing the handler shows the
    one validation message, sends nothing and does not touch the button. *)
Theorem request_needs_both_fields (f : Form) :
  (requests (actionsOf (handleSubmit_start f)) <> [] ->
   exists e c,
     email (values f) = Some e /\ e <> "" /\ captcha (values f) = Some c /\ c <> ""
     /\ requests (actionsOf (handleSubmit_start f))
        = [("https://formspree.io/f/mldpgkdj", body e)]
     /\ messages (actionsOf (handleSubmit_start f)) = [])
  /\ (truthy (email (values f)) = None \/ truthy (captcha (values f)) = None ->
      handleSubmit_start f
      = Returned [ preventDefault;
                   showMessage "Please fill in all required fields." "error" ]).
Proof.
  unfold handleSubmit_start. split.
  - destruct (truthy (email (values f))) as [e|] eqn:He; [|done].
    destruct (truthy (captcha (values f))) as [c|] eqn:Hc; [|done].
    apply truthy_Some in He as [He ?], Hc as [Hc ?].
    destruct (submitBtn f); [|done]. intros _. by exists e, c.
  - intros [-> | ->]; [done|]. by destruct (truthy (email (values f))).
Qed.

(** X10. The captcha answer is never checked and never sent: for any two
    non-empty answers the handler does exactly the same, request included. *)
Theorem captcha_is_not_checked (f : Form) (c1 c2 : string) :
  c1 <> "" -> c2 <> "" ->
  actionsOf (handleSubmit_start (withCaptcha (Some c1) f))
  = actionsOf (handleSubmit_start (withCaptcha (Some c2) f)).
Proof.
  intros H1 H2. unfold handleSubmit_start, withCaptcha. cbn.
  apply String.eqb_neq in H1, H2. rewrite H1, H2.
  destruct (truthy (email (values f))); [|done]. by destruct (submitBtn f).
Qed.

Lemma captcha_is_not_checked_witness :
  let f := mkForm (mkValues (Some "ana@example.org") None) (mkValues (Some "") (Some ""))
             (Some (mkButton false "Receive PDF")) in
  requests (actionsOf (handleSubmit_start (withCaptcha (Some "7") f)))
  = [("https://formspree.io/f/mldpgkdj", body "ana@example.org")]
  /\ actionsOf (handleSubmit_start (withCaptcha (Some "7") f))
     = actionsOf (handleSubmit_start (withCaptcha (Some "wrong") f)).
Proof.
  cbv zeta. split; [reflexivity|].
  apply captcha_is_not_checked; discriminate.
Defined.

(** X11. However the request settles, the [finally] block leaves the submit
    button enabled with its label "Receive PDF" and the fields as they were,
    and exactly one message is shown.  The PDF is opened (and the modal
    closed) only after a response with [ok]; a response without [ok] and a
    failed request show the same error message. *)
Theorem settle_reenables_button (r : FetchResult) (f : Form) :
  submitBtn (fst (handleSubmit_settle r f)) = Some (mkButton false "Receive PDF")
  /\ values (fst (handleSubmit_settle r f)) = values f
  /\ length (messages (snd (handleSubmit_settle r f))) = 1
  /\ requests (snd (handleSubmit_settle r f)) = []
  /\ (redirects (snd (handleSubmit_settle r f)) <> [] <-> r = Responded true)
  /\ messages (snd (handleSubmit_settle (Responded false) f))
     = messages (snd (handleSubmit_settle NetworkError f)).
Proof.
  repeat split; try by destruct r as [[]|].
Qed.

(** X12. Closing always ends in the same state: the modal hidden, the page
    scrollable again and every field back at its default, whether or not the
    modal was open before ([closeModal] absorbs [openModal] and itself).  A
    key press changes the page only if the key is Escape and the modal is
    shown. *)
Theorem closeModal_absorbs (p : Page) (key : string) :
  closeModal (openModal p) = closeModal p
  /\ closeModal (closeModal p) = closeModal p
  /\ shown (closeModal p) = false
  /\ (values <$> form (closeModal p)) = (defaults <$> form p)
  /\ onKeydown key p
     = (if String.eqb key "Escape" && shown p then closeModal p else p)
  /\ (shown p = false -> onKeydown key p = p)
  /\ shown (onKeydown "Escape" p) = false.
Proof.
  destruct p as [sh ah bo [f|]]; unfold onKeydown; cbn;
    repeat split; try (by destruct sh); try (by intros ->; rewrite andb_false_r).
Qed.

End DemoFormHandlerFacts.

(** * Properties of the frame loop of the parallax layers *)

Module TerritoryLayersEffectFacts.
Import TerritoryLayersEffect.

(** Every pending run of [frame] is the one [animationFrameRef] names, it is
    pending only while a cleanup is outstanding, and then, with the container
    attached, there is exactly one. *)
Record LoopInv (c : Component) : Prop := mkLoopInv {
  inv_named : forall h, h ∈ pendingFrames c ->
              animationFrameRef c = Some h /\ cleanupPending c = true /\ h <> 0;
  inv_single : length (pendingFrames c) <= 1;
  inv_alive : cleanupPending c = true -> containerRef c = true ->
              length (pendingFrames c) = 1;
  inv_handle : 1 <= nextHandle c
}.

Lemma pendingFrames_filter (h : nat) (cbs : list (nat * Callback)) :
  (forall h', h' ∈ omap (fun cb => match snd cb with
                                    | frameCallback => Some (fst cb)
                                    | showScene => None
                                    end) cbs -> h' = h) ->
  omap (fun cb => match snd cb with frameCallback => Some (fst cb) | showScene => None end)
       (List.filter (fun cb => negb (Nat.eqb (fst cb) h)) cbs) = [].
Proof.
  induction cbs as [|[h0 cb] rest IH]; intros Hall; [done|].
  cbn. destruct cb; cbn in *.
  - destruct (Nat.eqb h0 h); cbn; by apply IH.
  - assert (h0 = h) as -> by (apply Hall, list_elem_of_here).
    rewrite Nat.eqb_refl. cbn. apply IH. intros h' Hh'. apply Hall.
    by apply list_elem_of_further.
Qed.

Lemma LoopInv_unmounted : LoopInv unmounted.
Proof. split; cbn; try done; try lia. intros h H. by apply elem_of_nil in H. Qed.

Lemma LoopInv_step (c c' : Component) (e : Event) :
  LoopInv c -> step c e = Some c' -> LoopInv c'.
Proof.
  intros [Hn Hs Ha Hh] Hstep. unfold pendingFrames in *.
  destruct c as [cr sr ref cbs nh cp shown]; cbn in *.
  assert (Hnone : cp = false ->
                  omap (fun cb => match snd cb with
                                  | frameCallback => Some (fst cb)
                                  | showScene => None
                                  end) cbs = []).
  { intros ->. destruct (omap _ cbs) as [|h ?] eqn:E; [done|].
    destruct (Hn h) as (_ & ? & _); [apply list_elem_of_here|done]. }
  destruct e; cbn in Hstep.
  - (* AttachRefs *)
    destruct cp; [done|]. injection Hstep as <-. split; cbn; auto. done.
  - (* RunEffect *)
    destruct cp; [done|]. injection Hstep as <-. specialize (Hnone eq_refl).
    unfold effect; cbn. destruct (negb cr || negb sr); cbn.
    + split; cbn; auto.
    + split; cbn; rewrite ?omap_app, ?Hnone; cbn; try lia; try done.
      intros h Hin. apply list_elem_of_singleton in Hin as ->. repeat split. lia.
  - (* AnimationFrame *)
    destruct cbs as [|[h0 cb] rest]; [done|]. injection Hstep as <-.
    destruct cb; cbn in *.
    + unfold show; cbn. destruct sr; split; cbn; auto.
    + unfold frame; cbn.
      assert (Hrest : omap (fun cb => match snd cb with
                                      | frameCallback => Some (fst cb)
                                      | showScene => None
                                      end) rest = []).
      { destruct (omap _ rest); [done|]. cbn in Hs. lia. }
      destruct (Hn h0 (list_elem_of_here _ _)) as (_ & -> & _).
      destruct cr; cbn.
      * split; cbn; rewrite ?omap_app, ?Hrest; cbn; try lia; try done.
        intros h Hin. apply list_elem_of_singleton in Hin as ->. repeat split. lia.
      * split; cbn; rewrite ?Hrest; cbn; try lia; try done.
        intros h Hin. by apply elem_of_nil in Hin.
  - (* DetachRefs *)
    injection Hstep as <-. split; cbn; auto. done.
  - (* RunCleanup *)
    destruct cp; [|done]. injection Hstep as <-. unfold cleanup; cbn.
    assert (Hgone : omap (fun cb => match snd cb with
                                    | frameCallback => Some (fst cb)
                                    | showScene => None
                                    end)
                      match ref with
                      | Some h =>
                          if Nat.eqb h 0 then cbs
                          else List.filter (fun cb => negb (Nat.eqb (fst cb) h)) cbs
                      | None => cbs
                      end = []).
    { destruct (omap (fun cb => match snd cb with
                                | frameCallback => Some (fst cb)
                                | showScene => None
                                end) cbs) as [|h ?] eqn:E.
      - destruct ref as [h|]; [|done]. destruct (Nat.eqb h 0); [done|].
        apply pendingFrames_filter. rewrite E. intros h' H.
        by apply elem_of_nil in H.
      - destruct (Hn h (list_elem_of_here _ _)) as (-> & _ & Hh0).
        apply Nat.eqb_neq in Hh0. rewrite Hh0.
        apply pendingFrames_filter. intros h' Hh'. rewrite E in Hh'.
        destruct (Hn h' Hh') as ([= ->] & _). done. }
    split; cbn; rewrite ?Hgone; cbn; try lia; try done.
    intros h Hin. by apply elem_of_nil in Hin.
Qed.

Lemma LoopInv_run (evs : list Event) (c c' : Component) :
  LoopInv c -> run c evs = Some c' -> LoopInv c'.
Proof.
  revert c. induction evs as [|e rest IH]; intros c HI Hrun; cbn in Hrun.
  - by injection Hrun as <-.
  - destruct (step c e) as [c1|] eqn:Hstep; [|done].
    eapply IH; [|exact Hrun]. by eapply LoopInv_step.
Qed.

(** X13. However mounting, animation frames, unmounting and cleanups
    interleave, at most one run of [frame] is pending; none is pending once
    the cleanup has run (the loop does not outlive the component), and while
    the effect is active with the container attached exactly one is pending
    (the loop does not die). *)
Theorem frame_loop_single (evs : list Event) (c : Component) :
  run unmounted evs = Some c ->
  length (pendingFrames c) <= 1
  /\ (cleanupPending c = false -> pendingFrames c = [])
  /\ (cleanupPending c = true -> containerRef c = true ->
      exists h, pendingFrames c = [h] /\ animationFrameRef c = Some h).
Proof.
  intros Hrun.
  pose proof (LoopInv_run evs unmounted c LoopInv_unmounted Hrun) as [Hn Hs Ha Hh].
  split; [exact Hs|]. split.
  - intros Hcp. destruct (pendingFrames c) as [|h ?] eqn:E; [done|].
    destruct (Hn h (list_elem_of_here _ _)) as (_ & Hcp' & _). congruence.
  - intros Hcp Hcr. specialize (Ha Hcp Hcr).
    destruct (pendingFrames c) as [|h [|? ?]] eqn:E; cbn in Ha; try lia.
    exists h. split; [done|]. apply (Hn h (list_elem_of_here _ _)).
Qed.

Lemma frame_loop_single_witness :
  let evs := [ AttachRefs; RunEffect; AnimationFrame; AnimationFrame; AnimationFrame;
               DetachRefs; AnimationFrame; RunCleanup ] in
  run unmounted evs
  = Some (mkComponent false false (Some 4) [] 5 false true)
  /\ length (pendingFrames (mkComponent false false (Some 4) [] 5 false true)) <= 1.
Proof.
  cbv zeta. split; [reflexivity|].
  exact (proj1 (frame_loop_single
                  [ AttachRefs; RunEffect; AnimationFrame; AnimationFrame;
                    AnimationFrame; DetachRefs; AnimationFrame; RunCleanup ]
                  _ eq_refl)).
Defined.

End TerritoryLayersEffectFacts.

(** * The parallax layers at both ends of the scroll *)

Module TerritoryLayersEnds.
Import TerritoryLayers TerritoryLayersFacts.

Local Open Scope float_scope.

Lemma Prim2SF_0 : Prim2SF 0 = S754_zero false.
Proof. reflexivity. Qed.

Lemma Prim2SF_1 : Prim2SF 1 = S754_finite false 4503599627370496 (-52).
Proof. reflexivity. Qed.

Lemma SFeqb_refl (s : bool) (m : positive) (e : Z) :
  SFeqb (S754_finite s m e) (S754_finite s m e) = true.
Proof.
  unfold SFeqb. cbn. rewrite Z.compare_refl, Pos.compare_cont_refl.
  by destruct s.
Qed.

(** At or above the top of the viewport the scalar is [0]. *)
Lemma scrollProgress_low (rect : DOMRect) (innerHeight : float) :
  (ratio rect innerHeight <=? 0) = true -> scrollProgress rect innerHeight = 0.
Proof.
  unfold scrollProgress. generalize (ratio rect innerHeight). intros r Hr.
  rewrite FloatAxioms.leb_spec, Prim2SF_0 in Hr.
  assert (Hmin : Math_min 1 r = r).
  { unfold Math_min. change (is_nan 1) with false. cbn [orb]. unfold is_nan.
    rewrite FloatAxioms.eqb_spec, !FloatAxioms.ltb_spec, Prim2SF_1.
    destruct (Prim2SF r) as [[]|[]| |[] m e]; try done.
    by rewrite SFeqb_refl. }
  rewrite Hmin. unfold Math_max. change (is_nan 0) with false. cbn [orb].
  change (is_zero 0 && get_sign 0)%bool with false.
  unfold is_nan. rewrite FloatAxioms.eqb_spec, !FloatAxioms.ltb_spec, Prim2SF_0.
  destruct (Prim2SF r) as [[]|[]| |[] m e]; try done.
  by rewrite SFeqb_refl.
Qed.

(** Scrolled past the end the scalar is [1]. *)
Lemma scrollProgress_high (rect : DOMRect) (innerHeight : float) :
  (1 <=? ratio rect innerHeight) = true -> scrollProgress rect innerHeight = 1.
Proof.
  unfold scrollProgress. generalize (ratio rect innerHeight). intros r Hr.
  assert (Hmin : Math_min 1 r = 1); [|by rewrite Hmin].
  unfold Math_min. change (is_nan 1) with false. cbn [orb].
  change (is_zero 1 && get_sign 1)%bool with false.
  destruct (is_nan r) eqn:Hnan.
  { exfalso. revert Hnan Hr. unfold is_nan.
    rewrite FloatAxioms.eqb_spec, FloatAxioms.leb_spec, Prim2SF_1.
    destruct (Prim2SF r) as [[]|[]| |[] m e]; try done;
      by rewrite SFeqb_refl. }
  destruct (1 <? r) eqn:H1; [done|].
  destruct (r <? 1) eqn:H2.
  { exfalso. apply ltb_leb in H2 as H3.
    pose proof (nltb_leb 1 r eq_refl Hnan H1) as H4.
    revert H2 Hr. rewrite FloatAxioms.ltb_spec, FloatAxioms.leb_spec.
    unfold SFltb, SFleb. rewrite (SFcompare_swap (Prim2SF 1) (Prim2SF r)).
    by destruct (SFcompare (Prim2SF 1) (Prim2SF r)) as [[]|]. }
  (* neither is smaller: the ratio is 1 itself *)
  apply Prim2SF_inj. revert H1 H2 Hr.
  rewrite !FloatAxioms.ltb_spec, FloatAxioms.leb_spec, Prim2SF_1.
  unfold SFltb, SFleb.
  destruct (Prim2SF r) as [[]|[]| |[] m e]; try done.
  cbv beta iota delta [SFcompare].
  destruct (Z.compare_spec (-52) e) as [<-|Hlt|Hgt]; try done.
  rewrite Z.compare_refl, !Pos.compare_cont_spec.
  cbv beta iota delta [Pos.switch_Eq].
  by destruct (Pos.compare_spec 4503599627370496 m) as [<-|Hlt|Hgt].
Qed.

(** X14. A container whose top has not reached the top of the viewport gives
    the scalar [0]: every layer sits at its base depth and only the first one
    is closed.  A container scrolled past its end gives the scalar [1]: the
    eased value is [1], every layer sits at its full depth and all are
    open. *)
Theorem frame_saturates (rect : DOMRect) (innerHeight : float) (layers : nat) :
  ((ratio rect innerHeight <=? 0) = true ->
   frame (Some rect) innerHeight layers
   = Some (mkFrame 0 0
             (map (fun i => mkLayer (index i * 120 + index i * 180 * 0) "1" (Nat.ltb 0 i))
                  (seq 0 layers))
             true))
  /\ ((1 <=? ratio rect innerHeight) = true ->
      frame (Some rect) innerHeight layers
      = Some (mkFrame 1 1
                (map (fun i => mkLayer (index i * 120 + index i * 180 * 1) "1" true)
                     (seq 0 layers))
                true)).
Proof.
  split; intros Hr; unfold frame.
  - rewrite (scrollProgress_low rect innerHeight Hr).
    change (ease (Math_min (0 / 0.80) 1)) with 0. do 2 f_equal.
    apply map_ext. intros i. unfold layer. f_equal.
    change (0.10 <? 0) with false. by rewrite orb_false_r.
  - rewrite (scrollProgress_high rect innerHeight Hr).
    change (ease (Math_min (1 / 0.80) 1)) with 1. do 2 f_equal.
    apply map_ext. intros i. unfold layer. f_equal.
    change (0.10 <? 1) with true. by rewrite orb_true_r.
Qed.

End TerritoryLayersEnds.

(** * Runs of the lead-capture dialog *)

Module BookDemoModalRuns.
Import BookDemoModal BookDemoModalFacts.

(** A write in flight, as the store will keep it. *)
Definition toStore (d : DocumentData) : string * DocumentData := ("demo-requests", d).

(** Every stored document and every write in flight was sent, each by a
    submission of its own, and every pending timer belongs to a stored
    document. *)
Definition accounted (sys : System) : Prop :=
  stored sys ++ (toStore <$> inFlight sys) ⊆+ issued sys
  /\ length (timers sys) <= length (stored sys).

Lemma commit_accounted (before after : System) :
  accounted after -> accounted (commit before after).
Proof. unfold commit. by destruct (_ && _). Qed.

Lemma accounted_step (sys sys' : System) (e : Event) :
  Inv sys -> accounted sys -> step sys e = Some sys' -> accounted sys'.
Proof.
  intros HI [Hc1 Hc2] Hstep. destruct e; unfold step in Hstep.
  - injection Hstep as <-. done.
  - destruct (formShown _); [|done]. injection Hstep as <-. done.
  - destruct (formShown _); [|done]. injection Hstep as <-. done.
  - destruct (onScreen sys) as [r|]; [|done].
    destruct (canSubmit _); [|done]. injection Hstep as <-.
    split; [|done]. cbn. rewrite fmap_app, app_assoc.
    by apply submseteq_app.
  - destruct (onScreen sys) as [r|]; [|done]. injection Hstep as <-.
    apply commit_accounted. by destruct (handleClose_cases r) as [-> | ->].
  - destruct (inFlight sys !! n) as [d|] eqn:Hn; [|done]. injection Hstep as <-.
    destruct r; split; cbn.
    + rewrite <- app_assoc. cbn.
      by rewrite (delete_Permutation _ _ _ Hn) in Hc1.
    + rewrite !length_app. cbn. lia.
    + etrans; [|exact Hc1]. apply submseteq_app; [done|].
      apply fmap_submseteq, sublist_submseteq, sublist_delete.
    + done.
  - destruct (timers sys !! n) as [cb|] eqn:Hn; [|done]. injection Hstep as <-.
    rewrite (timer_is_autoClose sys n cb HI Hn).
    apply commit_accounted. split; [done|]. cbn.
    pose proof (lookup_lt_Some _ _ _ Hn) as Hlt.
    rewrite length_delete by (by rewrite Hn). lia.
  - destruct (isModalOpen sys); [done|].
    destruct (exiting sys); [|done]. by injection Hstep as <-.
Qed.

Lemma accounted_play (evs : list Event) (sys sys' : System) :
  Inv sys -> accounted sys -> play sys evs = Some sys' -> accounted sys'.
Proof.
  revert sys. induction evs as [|e rest IH]; intros sys HI Hc Hp; cbn in Hp.
  - by injection Hp as <-.
  - destruct (step sys e) as [sys1|] eqn:Hs; [|done].
    apply (IH sys1); [by eapply Inv_step|by eapply accounted_step|done].
Qed.

(** X15. On every run of the page, the exit animation included, the writes
    are accounted for: the stored documents together with the writes in
    flight are among the documents sent, each sent document counted once, so
    that no submission is stored twice and there are never more stored and
    pending writes than there were submissions; every pending timer is the
    auto-close of a stored document. *)
Theorem writes_accounted (evs : list Event) (sys : System) :
  play boot evs = Some sys ->
  stored sys ++ (toStore <$> inFlight sys) ⊆+ issued sys
  /\ length (stored sys) + length (inFlight sys) <= submissions evs
  /\ length (timers sys) <= length (stored sys)
  /\ Forall (fun cb => cb = autoClose) (timers sys).
Proof.
  intros Hplay.
  pose proof (Inv_play evs boot sys Inv_boot Hplay) as HI.
  assert (Hc : accounted sys).
  { apply (accounted_play evs boot sys Inv_boot); [|done]. split; cbn; [done|lia]. }
  destruct Hc as [Hc1 Hc2].
  split; [done|]. split; [|split; [done|apply (inv_timers sys HI)]].
  pose proof (play_issued evs boot sys Inv_boot Hplay) as Hiss. cbn in Hiss.
  apply submseteq_length in Hc1. rewrite length_app, length_fmap in Hc1. lia.
Qed.

(** The form submitted twice while the dialog fades out: two writes in
    flight. *)
Definition twiceWhileExiting : System :=
  mkSystem (mkState "" "" true false "") false
    [ demoRequest ana; demoRequest ana ] []
    [ ("demo-requests", demoRequest ana); ("demo-requests", demoRequest ana) ] []
    (Some ana).

Lemma writes_accounted_witness :
  play boot (submitWhileExiting ++ [SubmitForm]) = Some twiceWhileExiting
  /\ length (stored twiceWhileExiting) + length (inFlight twiceWhileExiting) <= 2.
Proof.
  split; [reflexivity|].
  exact (proj1 (proj2
    (writes_accounted (submitWhileExiting ++ [SubmitForm]) twiceWhileExiting eq_refl))).
Defined.

(** X16. The auto-close of a success is unconditional: on every run of the
    page, any pending timer can fire, and when it does it empties the e-mail
    and company fields, clears the success flag and closes the dialog,
    whether or not the dialog was closed and reopened in between and whether
    or not another write is in flight; the submitting flag, the error
    message and the writes are left alone, and what was on screen starts (or
    goes on with) its exit. *)
Theorem autoClose_is_unconditional (evs : list Event) (sys : System) (n : nat) :
  play boot evs = Some sys ->
  n < length (timers sys) ->
  step sys (TimerFires n)
  = Some (mkSystem
            (mkState "" "" (isSubmitting (modal sys)) false (error (modal sys)))
            false (inFlight sys) (delete n (timers sys)) (issued sys) (stored sys)
            (onScreen sys)).
Proof.
  intros Hplay Hn.
  pose proof (Inv_play evs boot sys Inv_boot Hplay) as HI.
  destruct (lookup_lt_is_Some_2 (timers sys) n Hn) as [cb Hcb].
  unfold step. rewrite Hcb, (timer_is_autoClose sys n cb HI Hcb).
  unfold commit, onScreen. cbn. by destruct (isModalOpen sys).
Qed.

(** The visitor closed the success panel by hand and came back. *)
Definition cameBack : list Event :=
  filled ++ [ SubmitForm; WriteSettles 0 Accepted; ClickClose;
              ClickGetStarted; TypeEmail "li@example.org" ].

Definition typingAgain : System :=
  mkSystem (mkState "li@example.org" "" false false "") true [] [autoClose]
    [("demo-requests", demoRequest ana)]
    [("demo-requests", demoRequest ana)]
    None.

Lemma autoClose_is_unconditional_witness :
  play boot cameBack = Some typingAgain
  /\ 0 < length (timers typingAgain)
  /\ isModalOpen <$> step typingAgain (TimerFires 0) = Some false.
Proof.
  split; [reflexivity|]. split; [exact (le_n 1)|].
  rewrite (autoClose_is_unconditional cameBack typingAgain 0 eq_refl (le_n 1)).
  reflexivity.
Defined.

End BookDemoModalRuns.
